(** * Staged upload pipeline (multer + cloudinary): a shallow embedding

    The development follows the two server variants of the repository:

    - [multer.js]      : local disk staging only (MIME filter, timestamp names);
    - [cloudinary.js]  : disk staging, remote transfer through the cloudinary
                         uploader, local cleanup ([uploadAndCleanup],
                         [deleteLocalFile]) and the request handlers.

    JavaScript values are modelled by an inductive type of JSON-like values,
    asynchronous functions by a state-and-exception monad over an explicit
    world (scratch directory, provider oracle, fault oracle, event trace). *)

From stdpp Require Import base decidable option list strings gmap sets pretty.
From Stdlib Require Import Ascii ZArith Lia.

Set Warnings "-register-all".

Open Scope Z_scope.
Open Scope list_scope.

(* ===================================================================== *)
(** ** JavaScript values                                                  *)
(* ===================================================================== *)

Module Js.

(** The fragment of JavaScript values that flows through the handlers:
    object literals, arrays, strings, integral numbers, booleans and
    [undefined]. *)
Inductive Value : Type :=
| VUndefined
| VNull
| VBool (b : bool)
| VNum (n : Z)
| VStr (s : string)
| VArr (items : list Value)
| VObj (fields : list (string * Value)).

(** A thrown [Error]: only its [message] is ever read by the program. *)
Record JsError : Type := mkError { message : string }.

(** ToBoolean, as used by [!x] and [a || b]. *)
Definition truthy (v : Value) : bool :=
  match v with
  | VUndefined | VNull => false
  | VBool b => b
  | VNum n => negb (n =? 0)
  | VStr s => negb (String.eqb s "")
  | VArr _ | VObj _ => true
  end.

Fixpoint assoc (k : string) (fields : list (string * Value)) : Value :=
  match fields with
  | [] => VUndefined
  | (k', v) :: rest => if String.eqb k k' then v else assoc k rest
  end.

(** Property read [v.k].  Reading a property of [undefined] or [null]
    throws a TypeError; a missing property reads as [undefined]. *)
Definition get_prop (v : Value) (k : string) : JsError + Value :=
  match v with
  | VUndefined =>
      inl (mkError ("Cannot read properties of undefined (reading '" +:+ k +:+ "')"))
  | VNull =>
      inl (mkError ("Cannot read properties of null (reading '" +:+ k +:+ "')"))
  | VObj fields => inr (assoc k fields)
  | _ => inr VUndefined
  end.

(** What [JSON.stringify] keeps of a value: object properties whose value is
    [undefined] are dropped, [undefined] array items become [null]. *)
Fixpoint wire (v : Value) : Value :=
  match v with
  | VArr items =>
      VArr (List.map (λ x, match x with VUndefined => VNull | _ => wire x end) items)
  | VObj fields =>
      VObj (List.flat_map
              (λ kv, match kv with
                     | (_, VUndefined) => []
                     | (k, x) => [(k, wire x)]
                     end) fields)
  | _ => v
  end.

(** All string leaves of a value (property names excluded). *)
Fixpoint strings_of (v : Value) : list string :=
  match v with
  | VStr s => [s]
  | VArr items => List.flat_map strings_of items
  | VObj fields => List.flat_map (λ kv, match kv with (_, x) => strings_of x end) fields
  | _ => []
  end.

(** [hay.startsWith(needle)] *)
Fixpoint startsWith (hay needle : string) : bool :=
  match needle, hay with
  | EmptyString, _ => true
  | String _ _, EmptyString => false
  | String a needle', String b hay' => Ascii.eqb a b && startsWith hay' needle'
  end.

(** [needle] occurs somewhere inside [hay] ([String.prototype.includes],
    and what an unanchored literal pattern matches). *)
Fixpoint includes (needle hay : string) : bool :=
  startsWith hay needle
  || match hay with
     | EmptyString => false
     | String _ hay' => includes needle hay'
     end.

(** [v] carries the string [s] in one of its string leaves. *)
Definition mentions (s : string) (v : Value) : bool :=
  existsb (includes s) (strings_of v).

End Js.
Export Js.

(* ===================================================================== *)
(** ** Strings and paths (Node's [path.posix])                            *)
(* ===================================================================== *)

Module Str.

Definition lower_char (c : ascii) : ascii :=
  let n := Ascii.N_of_ascii c in
  if ((65 <=? n) && (n <=? 90))%N then Ascii.ascii_of_N (n + 32) else c.

(** [String.prototype.toLowerCase] on the ASCII range. *)
Fixpoint toLowerCase (s : string) : string :=
  match s with
  | EmptyString => EmptyString
  | String c s' => String (lower_char c) (toLowerCase s')
  end.

(** [s.slice(from, to)] for [0 <= from]. *)
Definition slice (s : string) (from to : Z) : string :=
  String.substring (Z.to_nat from) (Z.to_nat (to - from)) s.

Definition len (s : string) : Z := Z.of_nat (String.length s).

(** [(size / 1024).toFixed(2)]: the quotient is exact in binary floating
    point, so the two decimals are the half-up rounding of [size*100/1024]. *)
Definition kilobytes_toFixed2 (size : N) : string :=
  let n := ((200 * size + 1024) / 2048)%N in
  pretty (n / 100)%N
    +:+ "."
    +:+ String (pretty_N_char (n `mod` 100 / 10)%N)
          (String (pretty_N_char (n `mod` 10)%N) EmptyString).

End Str.

Module Path.

(** Loop state of [extname]. *)
Record ExtState : Type := mkExt {
  startDot : Z;
  startPart : Z;
  end_ : Z;
  matchedSlash : bool;
  preDotState : Z
}.

(** The backwards scan of [path.extname]; [n] is [i + 1]. *)
Fixpoint extname_scan (path : string) (n : nat) (st : ExtState) : ExtState :=
  match n with
  | O => st
  | S i =>
      match String.get i path with
      | None => st
      | Some code =>
          if Ascii.eqb code "/"%char then
            if negb (matchedSlash st)
            then mkExt (startDot st) (Z.of_nat i + 1) (end_ st)
                       (matchedSlash st) (preDotState st)
            else extname_scan path i st
          else
            let st1 :=
              if end_ st =? -1
              then mkExt (startDot st) (startPart st) (Z.of_nat i + 1)
                         false (preDotState st)
              else st in
            let st2 :=
              if Ascii.eqb code "."%char then
                if startDot st1 =? -1
                then mkExt (Z.of_nat i) (startPart st1) (end_ st1)
                           (matchedSlash st1) (preDotState st1)
                else if negb (preDotState st1 =? 1)
                then mkExt (startDot st1) (startPart st1) (end_ st1)
                           (matchedSlash st1) 1
                else st1
              else if negb (startDot st1 =? -1)
              then mkExt (startDot st1) (startPart st1) (end_ st1)
                         (matchedSlash st1) (-1)
              else st1 in
            extname_scan path i st2
      end
  end.

(** [path.extname(path)] *)
Definition extname (path : string) : string :=
  let st := extname_scan path (String.length path) (mkExt (-1) 0 (-1) true 0) in
  if (startDot st =? -1) || (end_ st =? -1) || (preDotState st =? 0)
     || ((preDotState st =? 1) && (startDot st =? end_ st - 1)
         && (startDot st =? startPart st + 1))
  then EmptyString
  else Str.slice path (startDot st) (end_ st).

(** Loop state of [basename]. *)
Record BaseState : Type := mkBase {
  start : Z;
  bend : Z;
  bmatchedSlash : bool;
  extIdx : Z;
  firstNonSlashEnd : Z
}.

(** The scan of [path.basename] when a non-empty suffix is given. *)
Fixpoint basename_suffix_scan (path suffix : string) (n : nat) (st : BaseState)
  : BaseState :=
  match n with
  | O => st
  | S i =>
      match String.get i path with
      | None => st
      | Some code =>
          if Ascii.eqb code "/"%char then
            if negb (bmatchedSlash st)
            then mkBase (Z.of_nat i + 1) (bend st) (bmatchedSlash st)
                        (extIdx st) (firstNonSlashEnd st)
            else basename_suffix_scan path suffix i st
          else
            let st1 :=
              if firstNonSlashEnd st =? -1
              then mkBase (start st) (bend st) false (extIdx st) (Z.of_nat i + 1)
              else st in
            let st2 :=
              if 0 <=? extIdx st1 then
                if bool_decide (Some code = String.get (Z.to_nat (extIdx st1)) suffix)
                then
                  if extIdx st1 - 1 =? -1
                  then mkBase (start st1) (Z.of_nat i) (bmatchedSlash st1)
                              (extIdx st1 - 1) (firstNonSlashEnd st1)
                  else mkBase (start st1) (bend st1) (bmatchedSlash st1)
                              (extIdx st1 - 1) (firstNonSlashEnd st1)
                else mkBase (start st1) (firstNonSlashEnd st1) (bmatchedSlash st1)
                            (-1) (firstNonSlashEnd st1)
              else st1 in
            basename_suffix_scan path suffix i st2
      end
  end.

(** The scan of [path.basename] without a usable suffix. *)
Fixpoint basename_plain_scan (path : string) (n : nat) (st : BaseState) : BaseState :=
  match n with
  | O => st
  | S i =>
      match String.get i path with
      | None => st
      | Some code =>
          if Ascii.eqb code "/"%char then
            if negb (bmatchedSlash st)
            then mkBase (Z.of_nat i + 1) (bend st) (bmatchedSlash st)
                        (extIdx st) (firstNonSlashEnd st)
            else basename_plain_scan path i st
          else if bend st =? -1
          then basename_plain_scan path i
                 (mkBase (start st) (Z.of_nat i + 1) false
                         (extIdx st) (firstNonSlashEnd st))
          else basename_plain_scan path i st
      end
  end.

(** [path.basename(path, suffix)] *)
Definition basename (path suffix : string) : string :=
  if (0 <? Str.len suffix) && (Str.len suffix <=? Str.len path) then
    if String.eqb suffix path then EmptyString
    else
      let st := basename_suffix_scan path suffix (String.length path)
                  (mkBase 0 (-1) true (Str.len suffix - 1) (-1)) in
      let e := if start st =? bend st then firstNonSlashEnd st
               else if bend st =? -1 then Str.len path
               else bend st in
      Str.slice path (start st) e
  else
    let st := basename_plain_scan path (String.length path)
                (mkBase 0 (-1) true (-1) (-1)) in
    if bend st =? -1 then EmptyString else Str.slice path (start st) (bend st).

End Path.

(* ===================================================================== *)
(** ** The world: scratch directory, provider, faults, trace              *)
(* ===================================================================== *)

Inductive Event : Type :=
| EvUpload (filePath : string)          (* cloudinary.uploader.upload called *)
| EvUnlink (filePath : string) (ok : bool)  (* fs.unlink called, with outcome *)
| EvWrite (filePath : string)           (* a staged file written to disk *)
| EvMkdir (dir : string)                (* fs.mkdirSync *)
| EvNow (t : N)                         (* Date.now() read *)
| EvRandom (r : N)                      (* Math.random() drawn *)
| EvLog (msg : string)                  (* console.log *)
| EvError (msg : string).               (* console.error *)

(** Outcome of one remote upload call: the provider's response object, or
    the error it rejects with. *)
Inductive Remote : Type :=
| Resolved (descriptor : list (string * Value))
| Rejected (error : JsError).

Record World : Type := mkWorld {
  disk : gset string;                   (* paths present in the scratch area *)
  provider : string → Value → Remote;   (* what the remote store answers *)
  unlinkFault : nat → bool;             (* the n-th unlink call hits EPERM *)
  denied : string → bool;               (* entries fs.promises cannot reach or create
                                           (EACCES, ENOSPC, ENOTDIR: the disk does not
                                           tell files from directories) *)
  clock : nat → N;                      (* the n-th reading of Date.now() *)
  dice : nat → N;                       (* the n-th Math.round(Math.random() * 1E9) *)
  trace : list Event                    (* events so far, oldest first *)
}.

Definition emit (e : Event) (w : World) : World :=
  mkWorld (disk w) (provider w) (unlinkFault w) (denied w) (clock w) (dice w) (trace w ++ [e]).

Definition set_disk (d : gset string) (w : World) : World :=
  mkWorld d (provider w) (unlinkFault w) (denied w) (clock w) (dice w) (trace w).

Definition set_provider (answer : Remote) (w : World) : World :=
  mkWorld (disk w) (λ _ _, answer) (unlinkFault w) (denied w) (clock w) (dice w) (trace w).

Definition set_fault (fault : nat → bool) (w : World) : World :=
  mkWorld (disk w) (provider w) fault (denied w) (clock w) (dice w) (trace w).

Definition is_unlink (e : Event) : bool :=
  match e with EvUnlink _ _ => true | _ => false end.

Definition is_unlink_of (p : string) (e : Event) : bool :=
  match e with EvUnlink q _ => String.eqb p q | _ => false end.

Definition is_fs_write (e : Event) : bool :=
  match e with EvWrite _ | EvMkdir _ => true | _ => false end.

Definition is_now (e : Event) : bool :=
  match e with EvNow _ => true | _ => false end.

Definition is_random (e : Event) : bool :=
  match e with EvRandom _ => true | _ => false end.

Definition count (f : Event → bool) (w : World) : nat :=
  List.length (List.filter f (trace w)).

(** Number of [fs.unlink] calls made so far (on any path). *)
Definition unlink_calls (w : World) : nat := count is_unlink w.

(** Number of delete attempts made so far on the path [p]. *)
Definition unlink_attempts (p : string) (w : World) : nat := count (is_unlink_of p) w.

(** Number of writes into the scratch area so far. *)
Definition fs_writes (w : World) : nat := count is_fs_write w.

(** The next [fs.unlink filePath] call in [w] would succeed. *)
Definition unlink_succeeds (filePath : string) (w : World) : bool :=
  negb (unlinkFault w (unlink_calls w)) && bool_decide (filePath ∈ disk w).

(* ===================================================================== *)
(** ** Async functions: state and exceptions                              *)
(* ===================================================================== *)

Inductive Completion (A : Type) : Type :=
| Normal (a : A)
| Throw (e : JsError).
Arguments Normal {A} a.
Arguments Throw {A} e.

Definition Async (A : Type) : Type := World → Completion A * World.

#[global] Instance async_ret : MRet Async := λ A a w, (Normal a, w).

#[global] Instance async_bind : MBind Async := λ A B f m w,
  match m w with
  | (Normal a, w') => f a w'
  | (Throw e, w') => (Throw e, w')
  end.

(** [try { body } catch (e) { handler e }] *)
Definition try_catch {A} (body : Async A) (handler : JsError → Async A) : Async A :=
  λ w, match body w with
       | (Normal a, w') => (Normal a, w')
       | (Throw e, w') => handler e w'
       end.

Definition throw {A} (e : JsError) : Async A := λ w, (Throw e, w).

Definition lift {A} (r : JsError + A) : Async A :=
  match r with inl e => throw e | inr a => mret a end.

Definition console_log (msg : string) : Async unit :=
  λ w, (Normal tt, emit (EvLog msg) w).

Definition console_error (msg : string) : Async unit :=
  λ w, (Normal tt, emit (EvError msg) w).

(** [Date.now()] *)
Definition Date_now : Async N :=
  λ w, let t := clock w (count is_now w) in (Normal t, emit (EvNow t) w).

(** [Math.round(Math.random() * 1E9)]: the draw is taken as the integer it
    rounds to. *)
Definition Math_round_random_1E9 : Async N :=
  λ w, let r := dice w (count is_random w) in (Normal r, emit (EvRandom r) w).

(** [await fs.unlink(filePath)]: removes the file when it is there and the
    call is not hit by a fault; rejects otherwise.  Every call is recorded. *)
Definition fs_unlink (filePath : string) : Async unit := λ w,
  if unlinkFault w (unlink_calls w) then
    (Throw (mkError ("EPERM: operation not permitted, unlink '" +:+ filePath +:+ "'")),
     emit (EvUnlink filePath false) w)
  else if decide (filePath ∈ disk w) then
    (Normal tt, emit (EvUnlink filePath true) (set_disk (disk w ∖ {[filePath]}) w))
  else
    (Throw (mkError ("ENOENT: no such file or directory, unlink '" +:+ filePath +:+ "'")),
     emit (EvUnlink filePath false) w).

(** [await cloudinary.uploader.upload(filePath, options)] *)
Definition cloudinary_uploader_upload (filePath : string) (options : Value)
  : Async Value := λ w,
  match provider w filePath options with
  | Resolved d => (Normal (VObj d), emit (EvUpload filePath) w)
  | Rejected e => (Throw e, emit (EvUpload filePath) w)
  end.

(** Writing a complete staged file. *)
Definition fs_write (filePath : string) : Async unit := λ w,
  (Normal tt, emit (EvWrite filePath) (set_disk (disk w ∪ {[filePath]}) w)).

(** The components of a path, cut at each ['/']. *)
Fixpoint components_from (cur rest : string) : list string :=
  match rest with
  | EmptyString => [cur]
  | String c rest' =>
      if Ascii.eqb c "/"%char then cur :: components_from "" rest'
      else components_from (cur +:+ String c EmptyString) rest'
  end.

(** One component entered from the components already walked, innermost
    first. *)
Definition enter (absolute : bool) (walked : list string) (component : string)
  : list string :=
  if String.eqb component "" || String.eqb component "." then walked
  else if String.eqb component ".." then
    match walked with
    | [] => if absolute then [] else [component]
    | top :: below => if String.eqb top ".." then component :: walked else below
    end
  else component :: walked.

(** The entry a path names, as the operating system resolves it against the
    working directory: empty and ['.'] components are skipped, ['..'] leaves
    the component before it, a trailing ['/'] is dropped, so that
    ['./uploads'], ['uploads'] and ['uploads/'] name one entry.  The disk
    holds entries in this form.  Symbolic links are not modelled. *)
Definition entry (p : string) : string :=
  let absolute := startsWith p "/" in
  let walked := List.fold_left (enter absolute) (components_from "" p) [] in
  (if absolute then "/" else "") +:+ String.concat "/" (List.rev walked).

(** [if (!fs.existsSync(dir)) fs.mkdirSync(dir)]: the directory is looked up
    by the entry its path names.  [fs.mkdirSync] is taken to succeed, as the
    write of the staged file is: the stager is followed on a disk that takes
    what it is given. *)
Definition fs_ensure_dir (dir : string) : Async unit := λ w,
  if decide (entry dir ∈ disk w) then (Normal tt, w)
  else (Normal tt, emit (EvMkdir dir) (set_disk (disk w ∪ {[entry dir]}) w)).

(** [await fs.access(p)]: rejects when the entry is not there or cannot be
    reached. *)
Definition fs_access (p : string) : Async unit := λ w,
  if denied w (entry p) then
    (Throw (mkError ("EACCES: permission denied, access '" +:+ p +:+ "'")), w)
  else if decide (entry p ∈ disk w) then (Normal tt, w)
  else (Throw (mkError ("ENOENT: no such file or directory, access '" +:+ p +:+ "'")), w).

(** The directories above [p]: the non-empty prefixes of [p] that end just
    before a ['/']. *)
Fixpoint ancestors_from (seen rest : string) : list string :=
  match rest with
  | EmptyString => []
  | String c rest' =>
      (if Ascii.eqb c "/"%char && negb (String.eqb seen "") then [seen] else [])
        ++ ancestors_from (seen +:+ String c EmptyString) rest'
  end.

Definition ancestors (p : string) : list string := ancestors_from "" p.

(** [await fs.mkdir(dir, { recursive: true })]: rejects, creating nothing,
    when the file system refuses the entry; otherwise creates the directory
    and the directories above it, existing ones being left alone. *)
Definition fs_mkdir_recursive (dir : string) : Async unit := λ w,
  if denied w (entry dir) then
    (Throw (mkError ("EACCES: permission denied, mkdir '" +:+ dir +:+ "'")), w)
  else
    (Normal tt,
     emit (EvMkdir dir)
       (set_disk (disk w ∪ list_to_set (ancestors (entry dir)) ∪ {[entry dir]}) w)).

(** [for (const x of l) { body x }] *)
Fixpoint for_of {A} (l : list A) (body : A → Async unit) : Async unit :=
  match l with
  | [] => mret tt
  | x :: l' => body x;; for_of l' body
  end.

(* ===================================================================== *)
(** ** Requests and responses                                             *)
(* ===================================================================== *)

(** [req.file] as multer's disk storage fills it in. *)
Module File.
Record t : Type := mk {
  fieldname : string;
  originalname : string;
  mimetype : string;
  destination : string;
  filename : string;
  path : string;
  size : N
}.
End File.

Record Request : Type := mkRequest {
  file : option File.t;                 (* [req.file], [None] is undefined *)
  body : list (string * Value)          (* [req.body], the text fields *)
}.

Record Response : Type := mkResponse {
  status : Z;
  payload : Value                       (* the JSON document sent *)
}.

(** [res.status(code).json(v)]: the caller receives the serialised value. *)
Definition respond (code : Z) (v : Value) : Async Response :=
  mret (mkResponse code (wire v)).

Definition has_status (code : Z) (r : Completion Response) : bool :=
  match r with
  | Normal resp => status resp =? code
  | Throw _ => false
  end.

(* ===================================================================== *)
(** ** The multer middleware                                              *)
(* ===================================================================== *)

Module Multer.

(** A file part as it arrives, before anything is stored. *)
Record Incoming : Type := mkIncoming {
  fieldname : string;
  originalname : string;
  mimetype : string;
  bytes : N
}.

(** What a [fileFilter] hands to its callback: [cb(null, true)] or
    [cb(new Error(...))]. *)
Inductive FilterOutcome : Type :=
| Accept
| Reject (e : JsError).

Record DiskStorage : Type := mkDiskStorage {
  destination : Incoming → Async string;
  filename : Incoming → Async string
}.

Record Options : Type := mkOptions {
  storage : DiskStorage;
  fileSize : N;                       (* [limits.fileSize] *)
  fileFilter : Incoming → Async FilterOutcome
}.

(** The error multer raises when a part outgrows [limits.fileSize]: code
    LIMIT_FILE_SIZE, reported as 'File too large'
    (multer_cloudinary_guide.md, Error Handling). *)
Definition LIMIT_FILE_SIZE : JsError := mkError "File too large".

(** Modelled from the spec: the path of a staged file (section 3), which
    the disk storage of the multer dependency builds by joining the
    destination directory and the generated name; given here for the
    destinations the servers use (['uploads/...'], ['./uploads']). *)
Definition join (dir name : string) : string :=
  let d := match dir with
           | String "."%char (String "/"%char rest) => rest
           | _ => dir
           end in
  if String.eqb (Str.slice d (Str.len d - 1) (Str.len d)) "/"
  then d +:+ name
  else d +:+ "/" +:+ name.

(** Modelled from the spec: the body of multer's [upload.single(field)]
    middleware, which is a dependency and not part of the sources.  Order of
    the stages as sections 2, 4.1 and 5 give it: the validator gates the
    stager; the byte ceiling is enforced by the transport before any disk
    write, a part of exactly [fileSize] bytes passing; only then the storage
    callbacks run and the file is written.  A failure is handed to
    [next(err)], here a [Throw]; the route handler is then not run. *)
Definition single (opts : Options) (part : option Incoming)
    (fields : list (string * Value)) : Async Request :=
  match part with
  | None => mret (mkRequest None fields)
  | Some inc =>
      verdict ← fileFilter opts inc;
      match verdict with
      | Reject e => throw e
      | Accept =>
          if (fileSize opts <? bytes inc)%N then throw LIMIT_FILE_SIZE
          else
            dir ← destination (storage opts) inc;
            name ← filename (storage opts) inc;
            let p := join dir name in
            fs_write p;;
            mret (mkRequest
                    (Some (File.mk (fieldname inc) (originalname inc) (mimetype inc)
                                   dir name p (bytes inc)))
                    fields)
      end
  end.

(** [app.post(path, upload.single(field), handler)]: the handler runs on the
    request the middleware passes on. *)
Definition route (opts : Options) (handler : Request → Async Response)
    (part : option Incoming) (fields : list (string * Value)) : Async Response :=
  req ← single opts part fields;
  handler req.





End Multer.

(* ===================================================================== *)
(** ** multer.js                                                          *)
(* ===================================================================== *)

Module MulterJs.
Import Multer.

(** [storage.destination], lines 19-25. *)
Definition destination (file : Incoming) : Async string :=
  let uploadDir := "./uploads" in
  fs_ensure_dir uploadDir;;
  mret uploadDir.

(** The name built at line 29. *)
Definition uniquename (originalname : string) (stamp : N) : string :=
  let ext := Path.extname originalname in
  let filenamewithoutExt := Path.basename originalname ext in
  filenamewithoutExt +:+ "-" +:+ pretty stamp +:+ ext.

(** [storage.filename], lines 26-34. *)
Definition filename (file : Incoming) : Async string :=
  stamp ← Date_now;
  let name := uniquename (originalname file) stamp in
  console_log ("saving file as: " +:+ name);;
  mret name.

Definition storage : DiskStorage := mkDiskStorage destination filename.

Definition allowedTypes : list string :=
  ["image/jpeg"; "image/jpg"; "image/png"; "image/gif"].

(** The decision of [fileFilter], lines 44-49:
    [allowedTypes.includes(file.mimetype)]. *)
Definition fileFilter_verdict (file : Incoming) : FilterOutcome :=
  if existsb (String.eqb (mimetype file)) allowedTypes
  then Accept
  else Reject (mkError "Invalid file type. Only JPEG, PNG and GIF are allowed.").

(** [fileFilter], lines 38-50. *)
Definition fileFilter (file : Incoming) : Async FilterOutcome :=
  console_log ("File received: line 39 " +:+ originalname file +:+ " "
               +:+ mimetype file +:+ " " +:+ fieldname file);;
  mret (fileFilter_verdict file).

(** [upload], lines 52-58. *)
Definition upload : Options := mkOptions storage (1024 * 1024 * 5) fileFilter.

(** [app.post('/upload-single', ...)], lines 61-79.  [res.json] alone
    answers with status 200. *)
Definition upload_single (req : Request) : Async Response :=
  match file req with
  | None => respond 400 (VObj [("message", VStr "No file uploaded")])
  | Some f =>
      console_log ("uploaded file " +:+ File.filename f);;
      console_log "other form data";;
      respond 200
        (VObj [("success", VBool true);
               ("message", VStr "File uploaded successfully");
               ("file",
                 VObj [("originalName", VStr (File.originalname f));
                       ("savedAs", VStr (File.filename f));
                       ("size", VStr (Str.kilobytes_toFixed2 (File.size f) +:+ " KB"));
                       ("path", VStr (File.path f))]);
               ("otherData", VObj (body req))])
  end.

(** One entry of [fileInfos], lines 86-90. *)
Definition fileInfo (file : File.t) : Value :=
  VObj [("originalName", VStr (File.originalname file));
        ("savedAs", VStr (File.filename file));
        ("size", VStr (Str.kilobytes_toFixed2 (File.size file) +:+ " KB"))].

(** [app.post('/upload-multiple', upload.array("myfiles", 3), ...)],
    lines 81-96; [files] is [req.files], an array or undefined. *)
Definition upload_multiple (files : option (list File.t)) : Async Response :=
  match files with
  | None => respond 400 (VObj [("message", VStr "No files uploaded")])
  | Some fs =>
      if (List.length fs =? 0)%nat
      then respond 400 (VObj [("message", VStr "No files uploaded")])
      else
        console_log ("uploaded " +:+ pretty (List.length fs) +:+ " files");;
        let fileInfos := List.map fileInfo fs in
        respond 200
          (VObj [("success", VBool true);
                 ("message",
                   VStr (pretty (List.length fs) +:+ " files uploaded successfully"));
                 ("files", VArr fileInfos)])
  end.

(** [obj[k] = v] on an object given by its properties in order. *)
Fixpoint set_prop (k : string) (v : Value) (fields : list (string * Value))
  : list (string * Value) :=
  match fields with
  | [] => [(k, v)]
  | (k', v') :: rest =>
      if String.eqb k k' then (k, v) :: rest else (k', v') :: set_prop k v rest
  end.

(** One entry of a field's list, lines 115-118. *)
Definition fieldInfo (file : File.t) : Value :=
  VObj [("originalName", VStr (File.originalname file));
        ("savedAs", VStr (File.filename file))].

(** [app.post("/upload-multiple-fields", upload.fields([...]), ...)],
    lines 98-123; [files] is [req.files], an object from field names to
    arrays, given by [Object.entries], or undefined. *)
Definition upload_multiple_fields (files : option (list (string * list File.t)))
  : Async Response :=
  match files with
  | None => respond 400 (VObj [("message", VStr "No files uploaded")])
  | Some entries =>
      let uploadedFiles :=
        List.fold_left
          (λ acc entry, set_prop entry.1 (VArr (List.map fieldInfo entry.2)) acc)
          entries [] in
      respond 200 (VObj [("success", VBool true);
                         ("uploadedFiles", VObj uploadedFiles)])
  end.


End MulterJs.

(* ===================================================================== *)
(** ** cloudinary.js                                                      *)
(* ===================================================================== *)

Module CloudinaryJs.
Import Multer.

(** [basename + '-' + Date.now() + '-' + random + ext],
    lines 118-121 (and again 130-133, 143-146). *)
Definition unique_name (originalname : string) (stamp rnd : N) : string :=
  let uniqueSuffix := pretty stamp +:+ "-" +:+ pretty rnd in
  let ext := Path.extname originalname in
  let basename := Path.basename originalname ext in
  basename +:+ "-" +:+ uniqueSuffix +:+ ext.

(** The [filename] callback shared by the three disk storages. *)
Definition filename (file : Incoming) : Async string :=
  stamp ← Date_now;
  rnd ← Math_round_random_1E9;
  mret (unique_name (originalname file) stamp rnd).

(** [storage], lines 113-123. *)
Definition storage : DiskStorage :=
  mkDiskStorage (λ _, mret "uploads/") filename.

(** [profileStorage], lines 125-135. *)
Definition profileStorage : DiskStorage :=
  mkDiskStorage (λ _, mret "uploads/profiles/") filename.

(** [documentStorage], lines 137-148. *)
Definition documentStorage : DiskStorage :=
  mkDiskStorage (λ _, mret "uploads/documents/") filename.

(** [re.test(s)] for a pattern that is an alternation of literals without
    anchors or flags: some alternative occurs in [s]. *)
Definition regexp_test (alternatives : list string) (s : string) : bool :=
  existsb (λ a, includes a s) alternatives.

(** [/jpeg|jpg|png|gif/] *)
Definition image_filetypes : list string := ["jpeg"; "jpg"; "png"; "gif"].

(** [/pdf|doc|docx|txt/] *)
Definition document_filetypes : list string := ["pdf"; "doc"; "docx"; "txt"].

(** The body shared by the three [fileFilter]s, lines 165-174. *)
Definition filter_verdict (filetypes : list string) (failure : string)
    (file : Incoming) : FilterOutcome :=
  let extname :=
    regexp_test filetypes (Str.toLowerCase (Path.extname (originalname file))) in
  let mimetype := regexp_test filetypes (mimetype file) in
  if mimetype && extname then Accept else Reject (mkError failure).

Definition fileFilter_verdict : Incoming → FilterOutcome :=
  filter_verdict image_filetypes "Only images are allowed".

(** [upload], lines 162-175. *)
Definition upload : Options :=
  mkOptions storage (5 * 1024 * 1024) (λ file, mret (fileFilter_verdict file)).

(** [profileUpload], lines 177-191. *)
Definition profileUpload : Options :=
  mkOptions profileStorage (5 * 1024 * 1024) (λ file, mret (fileFilter_verdict file)).

(** [documentUpload], lines 193-207. *)
Definition documentUpload : Options :=
  mkOptions documentStorage (10 * 1024 * 1024)
    (λ file, mret (filter_verdict document_filetypes
                     "Only document files are allowed" file)).

(** [uploadAndCleanup], cloudinary.js lines 209-224.  The second [unlink]
    sits in the [catch] of the block that holds both the upload and the
    first [unlink]; the function falls off its end on that path. *)
Definition uploadAndCleanup (filePath : string) (options : Value) : Async Value :=
  try_catch
    (result ← cloudinary_uploader_upload filePath options;
     fs_unlink filePath;;
     console_log ("uploaded and cleaned up " +:+ filePath);;
     mret result)
    (λ error,
       try_catch
         (fs_unlink filePath;;
          console_log "cleaned up upload failed")
         (λ unlinkError,
            console_error ("Error during cleanup after upload failure: "
                           +:+ message unlinkError));;
       mret VUndefined).

(** [deleteLocalFile], lines 225-234. *)
Definition deleteLocalFile (filePath : string) : Async bool :=
  try_catch
    (fs_unlink filePath;;
     console_log ("Deleted local file: " +:+ filePath);;
     mret true)
    (λ error,
       console_error ("Error deleting file: " +:+ filePath +:+ " " +:+ message error);;
       mret false).

Definition image_options : Value :=
  VObj [("folder", VStr "user-uploads");
        ("transformation",
          VArr [VObj [("width", VNum 800); ("height", VNum 800); ("crop", VStr "limit")];
                VObj [("quality", VStr "auto")];
                VObj [("fetch_format", VStr "auto")]])].

(** The [catch] arm shared by both handlers up to the detail string:
    [if (req.file?.path) await deleteLocalFile(req.file.path)]. *)
Definition cleanup_in_catch (req : Request) : Async unit :=
  match file req with
  | Some f =>
      if truthy (VStr (File.path f))
      then deleteLocalFile (File.path f);; mret tt
      else mret tt
  | None => mret tt
  end.

(** [app.post('/api/upload/image', ...)], lines 236-271. *)
Definition upload_image (req : Request) : Async Response :=
  try_catch
    (match file req with
     | None => respond 400 (VObj [("error", VStr "No file uploaded")])
     | Some f =>
         result ← uploadAndCleanup (File.path f) image_options;
         respond 200 (VObj [("message", VStr "Image uploaded successfully");
                            ("data", result)])
     end)
    (λ error,
       cleanup_in_catch req;;
       respond 500 (VObj [("error", VStr "Server error");
                          ("details", VStr (message error))])).

Definition profile_options (stamp : N) : Value :=
  VObj [("folder", VStr "user-profiles");
        ("public_id", VStr ("profile_" +:+ pretty stamp));
        ("transformation",
          VArr [VObj [("width", VNum 400); ("height", VNum 400);
                      ("crop", VStr "fill"); ("gravity", VStr "face")];
                VObj [("quality", VStr "auto")];
                VObj [("fetch_format", VStr "auto")]]);
        ("overwrite", VBool true)].

(** [app.post('/api/upload/profile', ...)], lines 273-321. *)
Definition upload_profile (req : Request) : Async Response :=
  try_catch
    (match file req with
     | None => respond 400 (VObj [("error", VStr "no profile image uploaded")])
     | Some f =>
         let username := assoc "username" (body req) in
         let userId := assoc "userId" (body req) in
         (if negb (truthy username) || negb (truthy userId)
          then console_log "required fields are missing"
          else mret tt);;
         console_log ("profile image file " +:+ File.filename f);;
         console_log ("profile image file path " +:+ File.path f);;
         stamp ← Date_now;
         result ← uploadAndCleanup (File.path f) (profile_options stamp);
         url ← lift (get_prop result "secure_url");
         publicId ← lift (get_prop result "public_id");
         respond 200
           (VObj [("message", VStr "Profile image uploaded successfully");
                  ("user", VObj [("username", username);
                                 ("userId", userId);
                                 ("avatar", VObj [("url", url);
                                                  ("publicId", publicId)])]);
                  ("data", result)])
     end)
    (λ error,
       cleanup_in_catch req;;
       respond 500
         (VObj [("error", VStr "Server error");
                ("details",
                  VStr (if truthy (VStr (message error))
                        then message error
                        else "failed to upload profile image"))])).

(** [createSubDirs], lines 150-159. *)
Definition createSubDirs : Async unit :=
  let dirs := ["uploads/profiles"; "uploads/documents"; "uploads/temp"] in
  for_of dirs (λ dir, try_catch (fs_access dir) (λ _, fs_mkdir_recursive dir)).



End CloudinaryJs.

(** A small scenario: one staged file, chosen oracles. *)
Definition staged_png : File.t :=
  File.mk "image" "photo.png" "image/png" "uploads/"
          "photo-1700000000000-42.png" "uploads/photo-1700000000000-42.png" 2048.

Definition descriptor_png : list (string * Value) :=
  [("public_id", VStr "user-uploads/abc123");
   ("secure_url", VStr "https://res.cloudinary.com/demo/image/upload/abc123.png");
   ("format", VStr "png"); ("bytes", VNum 2048)].

Definition world0 (answer : Remote) (fault : nat → bool) : World :=
  mkWorld {[ File.path staged_png ]} (λ _ _, answer) fault (λ _, false)
          (λ _, 1700000000123%N) (λ _, 42%N) [].

Definition network_error : JsError := mkError "getaddrinfo ENOTFOUND api.cloudinary.com".

Definition no_fault : nat → bool := λ _, false.
Definition no_denial : string → bool := λ _, false.
Definition always_fault : nat → bool := λ _, true.

(* ===================================================================== *)
(** ** Derived notions used in the statements                             *)
(* ===================================================================== *)

(** What [uploadAndCleanup] resolves with, read off the oracles. *)
Definition resolution (filePath : string) (options : Value) (w : World) : Value :=
  match provider w filePath options with
  | Resolved d => if unlink_succeeds filePath w then VObj d else VUndefined
  | Rejected _ => VUndefined
  end.

(** The world in which the profile handler starts its transfer. *)
Definition profile_prelude (f : File.t) (b : list (string * Value)) (w : World) : World :=
  let w1 := if negb (truthy (assoc "username" b)) || negb (truthy (assoc "userId" b))
            then emit (EvLog "required fields are missing") w else w in
  emit (EvNow (clock w (count is_now w)))
    (emit (EvLog ("profile image file path " +:+ File.path f))
       (emit (EvLog ("profile image file " +:+ File.filename f)) w1)).

(** The property C1 asks of a handler run on [req] in [w], for the staged
    path [p]: one more delete attempt on [p] than before, and [p] gone. *)
Definition one_delete_and_gone (handler : Request → Async Response)
    (req : Request) (p : string) (w : World) : Prop :=
  let w' := (handler req w).2 in
  unlink_attempts p w' = S (unlink_attempts p w) ∧ p ∉ disk w'.

(** No ['-'] occurs in the string. *)
Fixpoint dash_free (s : string) : bool :=
  match s with
  | EmptyString => true
  | String c s' => negb (Ascii.eqb c "-"%char) && dash_free s'
  end.

(** The extension and MIME sets of the image policy. *)
Definition image_extensions : list string := [".jpeg"; ".jpg"; ".png"; ".gif"].
Definition image_mimes : list string := MulterJs.allowedTypes.

(** A rejection reason names the attribute it rejects on. *)
Definition names_attribute (reason : string) : bool :=
  let r := Str.toLowerCase reason in
  includes "extension" r || includes "mime" r.

Definition photo_JPG : Multer.Incoming :=
  Multer.mkIncoming "image" "photo.JPG" "image/jpeg" 2048.

Definition malware_exe : Multer.Incoming :=
  Multer.mkIncoming "image" "malware.exe" "application/x-msdownload" 2048.

Definition disguised_exe : Multer.Incoming :=
  Multer.mkIncoming "myfile" "malware.exe" "image/png" 2048.

(** The multer instances the two servers configure. *)
Definition configured : list Multer.Options :=
  [MulterJs.upload; CloudinaryJs.upload; CloudinaryJs.profileUpload;
   CloudinaryJs.documentUpload].




Definition with_bytes (n : N) (inc : Multer.Incoming) : Multer.Incoming :=
  Multer.mkIncoming (Multer.fieldname inc) (Multer.originalname inc)
                    (Multer.mimetype inc) n.

Definition is_upload (e : Event) : bool :=
  match e with EvUpload _ => true | _ => false end.

(** Number of calls to the remote store so far. *)
Definition upload_calls (w : World) : nat := count is_upload w.

(** No ['/'] occurs in the string. *)
Fixpoint slash_free (s : string) : bool :=
  match s with
  | EmptyString => true
  | String c s' => negb (Ascii.eqb c "/"%char) && slash_free s'
  end.

(** No ['/'] at the positions [a <= j < b] of [path]. *)
Definition clean (path : string) (a b : Z) : Prop :=
  ∀ j : nat, a ≤ Z.of_nat j < b → String.get j path ≠ Some "/"%char.

(** Only ['/'] at the positions [a <= j < b] of [path]. *)
Definition slashes (path : string) (a b : Z) : Prop :=
  ∀ j : nat, a ≤ Z.of_nat j < b → String.get j path = Some "/"%char.

(** The same part under another filename, or another declared type. *)
Definition rename (name : string) (inc : Multer.Incoming) : Multer.Incoming :=
  Multer.mkIncoming (Multer.fieldname inc) name (Multer.mimetype inc) (Multer.bytes inc).

Definition retype (mime : string) (inc : Multer.Incoming) : Multer.Incoming :=
  Multer.mkIncoming (Multer.fieldname inc) (Multer.originalname inc) mime
                    (Multer.bytes inc).

(** The verdict of the [fileFilter] of [documentUpload]. *)
Definition document_verdict : Multer.Incoming → Multer.FilterOutcome :=
  CloudinaryJs.filter_verdict CloudinaryJs.document_filetypes
    "Only document files are allowed".

(** What /upload-multiple may show of a stored file: the original name, the
    stored name and the size. *)
Definition shown (f : File.t) : string * string * N :=
  (File.originalname f, File.filename f, File.size f).

(** Two stored files as [upload.array] leaves them in [req.files]. *)
Definition stored_a : File.t :=
  File.mk "myfiles" "a.png" "image/png" "./uploads"
          "a-1700000000123.png" "uploads/a-1700000000123.png" 2048.

Definition stored_b : File.t :=
  File.mk "myfiles" "b.gif" "image/gif" "./uploads"
          "b-1700000000124.gif" "uploads/b-1700000000124.gif" 245234.

(** Every path on disk has the directories above it on disk. *)
Definition parent_closed (d : gset string) : Prop :=
  ∀ p q, p ∈ d → In q (ancestors p) → q ∈ d.

(** The two bodies the profile handler can send for a request with a file. *)
Definition profile_success (b d : list (string * Value)) : Value :=
  VObj [("message", VStr "Profile image uploaded successfully");
        ("user", VObj [("username", assoc "username" b);
                       ("userId", assoc "userId" b);
                       ("avatar", VObj [("url", assoc "secure_url" d);
                                        ("publicId", assoc "public_id" d)])]);
        ("data", VObj d)].

Definition profile_failure : Value :=
  VObj [("error", VStr "Server error");
        ("details", VStr "Cannot read properties of undefined (reading 'secure_url')")].

(** One of the words occurs in [s], with anything before and after it. *)
Definition contains_one (words : list string) (s : string) : Prop :=
  ∃ word pre post, In word words ∧ s = pre +:+ word +:+ post.

(** The extension found in [path]: it starts at the dot at [sd], ends at
    [e], holds no separator, and only separators follow it. *)
Definition ext_found (path : string) (sd e : Z) : Prop :=
  0 ≤ sd < e ∧ e ≤ Str.len path ∧ clean path sd e ∧ slashes path e (Str.len path).

(** What the scan of [extname] has established before it looks at position
    [n - 1]: either only separators so far, or the end of the last component
    and possibly its last dot. *)
Definition ext_inv (path : string) (n : nat) (st : Path.ExtState) : Prop :=
  (Path.end_ st = -1 ∧ Path.startDot st = -1 ∧ Path.matchedSlash st = true
   ∧ slashes path (Z.of_nat n) (Str.len path))
  ∨ (Path.matchedSlash st = false
     ∧ Z.of_nat n ≤ Path.end_ st ≤ Str.len path
     ∧ clean path (Z.of_nat n) (Path.end_ st)
     ∧ slashes path (Path.end_ st) (Str.len path)
     ∧ (Path.startDot st = -1 ∨ Z.of_nat n ≤ Path.startDot st < Path.end_ st)).

Definition ext_post (path : string) (st : Path.ExtState) : Prop :=
  Path.startDot st = -1 ∨ ext_found path (Path.startDot st) (Path.end_ st).

(** What the scan of [basename] without suffix has established before it
    looks at position [n - 1]. *)
Definition base_inv (path : string) (n : nat) (st : Path.BaseState) : Prop :=
  Path.start st = 0
  ∧ ((Path.bend st = -1 ∧ Path.bmatchedSlash st = true)
     ∨ (Path.bmatchedSlash st = false
        ∧ Z.of_nat n ≤ Path.bend st
        ∧ clean path (Z.of_nat n) (Path.bend st))).

Definition base_post (path : string) (st : Path.BaseState) : Prop :=
  Path.bend st = -1
  ∨ (0 ≤ Path.start st ≤ Path.bend st ∧ clean path (Path.start st) (Path.bend st)).

(** Where the scan of [basename] with the extension as suffix ends: the
    extension is cut off at its dot [sd], and the component starts after the
    last separator before it. *)
Definition base_cut (path : string) (sd e : Z) (st : Path.BaseState) : Prop :=
  ∃ s0, st = Path.mkBase s0 sd false (-1) e ∧ 0 ≤ s0 ≤ sd ∧ clean path s0 sd.

(** No ['.'] occurs in the string. *)
Fixpoint dot_free (s : string) : bool :=
  match s with
  | EmptyString => true
  | String c s' => negb (Ascii.eqb c "."%char) && dot_free s'
  end.

(** No ['.'] at the positions [a <= j < b] of [path]. *)
Definition nodot (path : string) (a b : Z) : Prop :=
  ∀ j : nat, a ≤ Z.of_nat j < b → String.get j path ≠ Some "."%char.

(** What the scan of [extname] knows about dots before it looks at position
    [n - 1]: the dot it holds is the last one of the component. *)
Definition dot_inv (path : string) (n : nat) (st : Path.ExtState) : Prop :=
  (Path.end_ st = -1 ∧ Path.startDot st = -1 ∧ Path.matchedSlash st = true)
  ∨ (Path.matchedSlash st = false
     ∧ Z.of_nat n ≤ Path.end_ st
     ∧ ((Path.startDot st = -1 ∧ nodot path (Z.of_nat n) (Path.end_ st))
        ∨ (Z.of_nat n ≤ Path.startDot st < Path.end_ st
           ∧ String.get (Z.to_nat (Path.startDot st)) path = Some "."%char
           ∧ nodot path (Path.startDot st + 1) (Path.end_ st)))).

Definition dot_post (path : string) (st : Path.ExtState) : Prop :=
  Path.startDot st = -1
  ∨ (String.get (Z.to_nat (Path.startDot st)) path = Some "."%char
     ∧ nodot path (Path.startDot st + 1) (Path.end_ st)).

(** The scan of [extname] over a name without separators whose last dot is
    at [L], of length [T], before it looks at position [n - 1]. *)
Definition kept_inv (L T : Z) (n : nat) (st : Path.ExtState) : Prop :=
  Path.startPart st = 0
  ∧ ((L < Z.of_nat n ∧ Path.startDot st = -1 ∧ Path.preDotState st = 0
      ∧ ((Path.end_ st = -1 ∧ Path.matchedSlash st = true ∧ Z.of_nat n = T)
         ∨ (Path.end_ st = T ∧ Path.matchedSlash st = false)))
     ∨ (Z.of_nat n ≤ L ∧ Path.startDot st = L ∧ Path.end_ st = T
        ∧ Path.matchedSlash st = false
        ∧ (Z.of_nat n = L → Path.preDotState st = 0)
        ∧ (Z.of_nat n < L → Path.preDotState st ≠ 0))).

Definition kept_post (L T : Z) (st : Path.ExtState) : Prop :=
  Path.startPart st = 0 ∧ Path.startDot st = L ∧ Path.end_ st = T
  ∧ Path.preDotState st ≠ 0.

(** Structural induction on values, through the lists they nest. *)
Section ValueInduction.
Variable P : Value → Prop.
Hypothesis Hundef : P VUndefined.
Hypothesis Hnull : P VNull.
Hypothesis Hbool : ∀ b, P (VBool b).
Hypothesis Hnum : ∀ n, P (VNum n).
Hypothesis Hstr : ∀ s, P (VStr s).
Hypothesis Harr : ∀ items, Forall P items → P (VArr items).
Hypothesis Hobj : ∀ fields, Forall (λ kv, P kv.2) fields → P (VObj fields).

Fixpoint Value_forall_ind (v : Value) : P v :=
  match v with
  | VUndefined => Hundef
  | VNull => Hnull
  | VBool b => Hbool b
  | VNum n => Hnum n
  | VStr s => Hstr s
  | VArr items =>
      Harr items
        ((fix go (l : list Value) : Forall P l :=
            match l with
            | [] => @List.Forall_nil _ P
            | x :: l' => @List.Forall_cons _ P x l' (Value_forall_ind x) (go l')
            end) items)
  | VObj fields =>
      Hobj fields
        ((fix go (l : list (string * Value)) : Forall (λ kv, P kv.2) l :=
            match l with
            | [] => @List.Forall_nil _ _
            | kv :: l' =>
                @List.Forall_cons _ (λ kv, P kv.2) kv l' (Value_forall_ind kv.2) (go l')
            end) fields)
  end.
End ValueInduction.

(** Unfolding of the monadic plumbing. *)
Ltac unfold_async :=
  unfold mbind, mret, async_bind, async_ret, try_catch, throw, lift,
    console_log, console_error, respond,
    cloudinary_uploader_upload in *.

(* ===================================================================== *)
(** ** Trace bookkeeping                                                  *)
(* ===================================================================== *)

Lemma count_emit f e w :
  count f (emit e w) = (count f w + (if f e then 1 else 0))%nat.
Proof.
  unfold count, emit; simpl.
  rewrite List.filter_app, List.length_app; simpl.
  destruct (f e); reflexivity.
Qed.

Lemma unlink_calls_emit e w :
  unlink_calls (emit e w) = (unlink_calls w + (if is_unlink e then 1 else 0))%nat.
Proof. apply count_emit. Qed.

Lemma unlink_attempts_emit p e w :
  unlink_attempts p (emit e w)
  = (unlink_attempts p w + (if is_unlink_of p e then 1 else 0))%nat.
Proof. apply count_emit. Qed.

Lemma unlink_attempts_set_disk p d w :
  unlink_attempts p (set_disk d w) = unlink_attempts p w.
Proof. reflexivity. Qed.

Lemma removed_is_gone (p : string) (d : gset string) : p ∉ d ∖ {[p]}.
Proof. apply not_elem_of_difference. right. apply elem_of_singleton. reflexivity. Qed.

Lemma is_unlink_of_refl p ok : is_unlink_of p (EvUnlink p ok) = true.
Proof. simpl. apply String.eqb_refl. Qed.

(** The two outcomes of [fs.unlink]. *)
Lemma fs_unlink_ok p w :
  unlink_succeeds p w = true →
  fs_unlink p w = (Normal tt, emit (EvUnlink p true) (set_disk (disk w ∖ {[p]}) w)).
Proof.
  unfold unlink_succeeds, fs_unlink.
  intros [Hf Hd%bool_decide_eq_true]%andb_true_iff.
  apply negb_true_iff in Hf. rewrite Hf.
  destruct (decide (p ∈ disk w)); [reflexivity | contradiction].
Qed.

Lemma fs_unlink_fails p w :
  unlink_succeeds p w = false →
  ∃ e, fs_unlink p w = (Throw e, emit (EvUnlink p false) w).
Proof.
  unfold unlink_succeeds, fs_unlink. intros H.
  destruct (unlinkFault w (unlink_calls w)); [eauto |].
  destruct (decide (p ∈ disk w)) as [Hin | Hnin]; [| eauto].
  rewrite bool_decide_eq_true_2 in H by assumption. discriminate.
Qed.

Lemma unlink_succeeds_emit_upload p q w :
  unlink_succeeds p (emit (EvUpload q) w) = unlink_succeeds p w.
Proof.
  unfold unlink_succeeds. rewrite unlink_calls_emit. simpl.
  rewrite Nat.add_0_r. reflexivity.
Qed.

(* ===================================================================== *)
(** ** [uploadAndCleanup]                                                 *)
(* ===================================================================== *)

Section UploadAndCleanup.
Import CloudinaryJs.
Variables (filePath : string) (options : Value) (w : World).

(** Transfer failed: one unlink in the [catch], then [undefined]. *)
Lemma uploadAndCleanup_rejected e :
  provider w filePath options = Rejected e →
  ∃ w', uploadAndCleanup filePath options w = (Normal VUndefined, w')
        ∧ unlink_attempts filePath w' = S (unlink_attempts filePath w)
        ∧ (unlink_succeeds filePath w = true → filePath ∉ disk w').
Proof.
  intros Hp. unfold uploadAndCleanup. unfold_async. rewrite Hp.
  destruct (unlink_succeeds filePath (emit (EvUpload filePath) w)) eqn:Hu.
  - rewrite (fs_unlink_ok _ _ Hu). eexists; split; [reflexivity |].
    rewrite !unlink_attempts_emit, unlink_attempts_set_disk,
      unlink_attempts_emit, is_unlink_of_refl; simpl.
    split; [lia | intros _; apply removed_is_gone].
  - destruct (fs_unlink_fails _ _ Hu) as [e' ->]. eexists; split; [reflexivity |].
    rewrite !unlink_attempts_emit, is_unlink_of_refl; simpl.
    split; [lia |]. rewrite unlink_succeeds_emit_upload in Hu. congruence.
Qed.

(** Transfer and first unlink succeeded: the provider's result comes back. *)
Lemma uploadAndCleanup_resolved_clean d :
  provider w filePath options = Resolved d →
  unlink_succeeds filePath w = true →
  ∃ w', uploadAndCleanup filePath options w = (Normal (VObj d), w')
        ∧ unlink_attempts filePath w' = S (unlink_attempts filePath w)
        ∧ filePath ∉ disk w'.
Proof.
  intros Hp Hu. unfold uploadAndCleanup. unfold_async. rewrite Hp.
  rewrite <- (unlink_succeeds_emit_upload filePath filePath) in Hu.
  rewrite (fs_unlink_ok _ _ Hu). eexists; split; [reflexivity |].
  rewrite !unlink_attempts_emit, unlink_attempts_set_disk,
    unlink_attempts_emit, is_unlink_of_refl; simpl.
  split; [lia | apply removed_is_gone].
Qed.

(** Transfer succeeded but the first unlink threw: the [catch] runs a
    second unlink and the result is lost. *)
Lemma uploadAndCleanup_resolved_dirty d :
  provider w filePath options = Resolved d →
  unlink_succeeds filePath w = false →
  ∃ w', uploadAndCleanup filePath options w = (Normal VUndefined, w')
        ∧ unlink_attempts filePath w' = S (S (unlink_attempts filePath w)).
Proof.
  intros Hp Hu. unfold uploadAndCleanup. unfold_async. rewrite Hp.
  rewrite <- (unlink_succeeds_emit_upload filePath filePath) in Hu.
  destruct (fs_unlink_fails _ _ Hu) as [e' ->].
  set (w1 := emit (EvUnlink filePath false) (emit (EvUpload filePath) w)).
  destruct (unlink_succeeds filePath w1) eqn:Hu2.
  - rewrite (fs_unlink_ok _ _ Hu2). eexists; split; [reflexivity |].
    subst w1.
    rewrite !unlink_attempts_emit, unlink_attempts_set_disk,
      !unlink_attempts_emit, !is_unlink_of_refl; simpl. lia.
  - destruct (fs_unlink_fails _ _ Hu2) as [e2 ->]. eexists; split; [reflexivity |].
    subst w1. rewrite !unlink_attempts_emit, !is_unlink_of_refl; simpl. lia.
Qed.

Lemma uploadAndCleanup_run :
  ∃ w', uploadAndCleanup filePath options w
        = (Normal (resolution filePath options w), w').
Proof.
  unfold resolution.
  destruct (provider w filePath options) as [d | e] eqn:Hp.
  - destruct (unlink_succeeds filePath w) eqn:Hu.
    + destruct (uploadAndCleanup_resolved_clean d Hp Hu) as (w' & Hrun & _); eauto.
    + destruct (uploadAndCleanup_resolved_dirty d Hp Hu) as (w' & Hrun & _); eauto.
  - destruct (uploadAndCleanup_rejected e Hp) as (w' & Hrun & _); eauto.
Qed.

End UploadAndCleanup.

(* ===================================================================== *)
(** ** The handlers of cloudinary.js                                      *)
(* ===================================================================== *)

Section Handlers.
Import CloudinaryJs.

Lemma unlink_succeeds_emit p e w :
  is_unlink e = false → unlink_succeeds p (emit e w) = unlink_succeeds p w.
Proof.
  intros He. unfold unlink_succeeds. rewrite unlink_calls_emit, He.
  rewrite Nat.add_0_r. reflexivity.
Qed.

(** [deleteLocalFile] swallows the failure of its unlink. *)
Lemma deleteLocalFile_total p w :
  ∃ ok w', deleteLocalFile p w = (Normal ok, w').
Proof.
  unfold deleteLocalFile. unfold_async.
  destruct (unlink_succeeds p w) eqn:Hu.
  - rewrite (fs_unlink_ok _ _ Hu). eauto.
  - destruct (fs_unlink_fails _ _ Hu) as [e ->]. eauto.
Qed.

Lemma cleanup_in_catch_total req w :
  ∃ w', cleanup_in_catch req w = (Normal tt, w').
Proof.
  unfold cleanup_in_catch. destruct (file req) as [f |]; [| eexists; reflexivity].
  destruct (truthy (VStr (File.path f))); [| eexists; reflexivity].
  destruct (deleteLocalFile_total (File.path f) w) as (ok & w' & Hd).
  unfold mbind, async_bind. rewrite Hd. eexists; reflexivity.
Qed.

(** With a file present the image handler answers from whatever
    [uploadAndCleanup] resolved with; its [catch] is not entered. *)
Lemma upload_image_run f b w v w' :
  uploadAndCleanup (File.path f) image_options w = (Normal v, w') →
  upload_image (mkRequest (Some f) b) w
  = (Normal (mkResponse 200
               (wire (VObj [("message", VStr "Image uploaded successfully");
                            ("data", v)]))), w').
Proof.
  intros Hrun. unfold upload_image; simpl.
  unfold mbind, async_bind, try_catch. rewrite Hrun. reflexivity.
Qed.

Lemma count_now_log msg w : count is_now (emit (EvLog msg) w) = count is_now w.
Proof. rewrite count_emit; simpl. apply Nat.add_0_r. Qed.

(** When [uploadAndCleanup] resolves with [undefined], reading
    [result.secure_url] throws and the [catch] arm answers. *)
Lemma upload_profile_undefined f b w w' :
  uploadAndCleanup (File.path f)
    (profile_options (clock w (count is_now w))) (profile_prelude f b w)
  = (Normal VUndefined, w') →
  (upload_profile (mkRequest (Some f) b) w).1
  = Normal (mkResponse 500
              (VObj [("error", VStr "Server error");
                     ("details",
                       VStr "Cannot read properties of undefined (reading 'secure_url')")])).
Proof.
  unfold profile_prelude, upload_profile; simpl.
  unfold mbind, async_bind, try_catch, console_log, Date_now, mret, async_ret.
  destruct (negb (truthy (assoc "username" b)) || negb (truthy (assoc "userId" b)));
    rewrite ?count_now_log; simpl; intros ->; simpl;
    match goal with
    | |- context [cleanup_in_catch ?r ?w0] =>
        destruct (cleanup_in_catch_total r w0) as [w2 ->]
    end; reflexivity.
Qed.

Lemma profile_prelude_provider f b w :
  provider (profile_prelude f b w) = provider w.
Proof. unfold profile_prelude. destruct (_ || _); reflexivity. Qed.

Lemma profile_prelude_unlink f b w p :
  unlink_succeeds p (profile_prelude f b w) = unlink_succeeds p w.
Proof.
  unfold profile_prelude.
  destruct (_ || _); rewrite !unlink_succeeds_emit; reflexivity.
Qed.

(** When [uploadAndCleanup] resolves with the provider's result, the profile
    handler answers 200 and does nothing more. *)
Lemma upload_profile_descriptor f b w d w' :
  uploadAndCleanup (File.path f)
    (profile_options (clock w (count is_now w))) (profile_prelude f b w)
  = (Normal (VObj d), w') →
  ∃ r, upload_profile (mkRequest (Some f) b) w = (Normal r, w') ∧ status r = 200.
Proof.
  unfold profile_prelude, upload_profile; simpl.
  unfold mbind, async_bind, try_catch, console_log, Date_now, mret, async_ret.
  destruct (negb (truthy (assoc "username" b)) || negb (truthy (assoc "userId" b)));
    rewrite ?count_now_log; simpl; intros ->; eexists; split; reflexivity.
Qed.

Lemma profile_prelude_attempts f b w p :
  unlink_attempts p (profile_prelude f b w) = unlink_attempts p w.
Proof.
  unfold profile_prelude.
  destruct (_ || _); rewrite !unlink_attempts_emit; simpl; lia.
Qed.

End Handlers.

(** C10 (cloudinary.js, [uploadAndCleanup]): for every path, options and
    world the helper resolves and never rejects.  It resolves with the
    provider's result exactly when the remote upload resolved and the unlink
    that follows it succeeded; when the upload was rejected, or the upload
    resolved and that unlink failed, it resolves with [undefined].  The value
    is the same [undefined] whatever error the provider or the file system
    raised, so neither the provider's detail nor the kind of failure can be
    recovered from it. *)
Theorem uploadAndCleanup_always_resolves (filePath : string) (options : Value) (w : World) :
  (CloudinaryJs.uploadAndCleanup filePath options w).1
  = Normal (match provider w filePath options with
            | Resolved d => if unlink_succeeds filePath w then VObj d else VUndefined
            | Rejected _ => VUndefined
            end).
Proof.
  destruct (uploadAndCleanup_run filePath options w) as [w' ->]. reflexivity.
Qed.

(** C1, as stated, fails.  The transfer succeeds and every unlink call is
    hit by a permission fault: the image handler makes two delete attempts
    and the staged file is still on disk.  The transfer fails and no unlink
    call is hit by a fault: the profile handler makes two delete attempts. *)
Lemma image_delete_fault_counterexample :
  let req := mkRequest (Some staged_png) [] in
  let p := File.path staged_png in
  let w := world0 (Resolved descriptor_png) always_fault in
  let w' := (CloudinaryJs.upload_image req w).2 in
  let v := world0 (Rejected network_error) no_fault in
  let v' := (CloudinaryJs.upload_profile req v).2 in
  ¬ one_delete_and_gone CloudinaryJs.upload_image req p w
  ∧ unlink_attempts p w' = 2%nat
  ∧ p ∈ disk w'
  ∧ ¬ one_delete_and_gone CloudinaryJs.upload_profile req p v
  ∧ unlink_attempts p v' = 2%nat.
Proof.
  split; [| split; [| split; [| split]]].
  - intros [H _]. vm_compute in H. discriminate.
  - vm_compute. reflexivity.
  - apply (bool_decide_unpack _). vm_compute. exact I.
  - intros [H _]. vm_compute in H. discriminate.
  - vm_compute. reflexivity.
Qed.

(** C1, amended: for a staged file that is on disk and an unlink call that is
    not hit by a fault, the /api/upload/image handler makes exactly one delete
    attempt on the staged path over the whole request, whether the remote
    transfer succeeded or failed, and the staged file does not exist when the
    handler completes; the /api/upload/profile handler does the same when the
    remote transfer succeeds. *)
Theorem single_delete_when_unlink_succeeds
    (f : File.t) (b : list (string * Value)) (w : World) :
  File.path f ∈ disk w →
  unlinkFault w (unlink_calls w) = false →
  one_delete_and_gone CloudinaryJs.upload_image (mkRequest (Some f) b) (File.path f) w
  ∧ ∀ d, provider w (File.path f)
           (CloudinaryJs.profile_options (clock w (count is_now w))) = Resolved d →
         one_delete_and_gone CloudinaryJs.upload_profile (mkRequest (Some f) b)
           (File.path f) w.
Proof.
  intros Hin Hfault.
  assert (Hu : unlink_succeeds (File.path f) w = true).
  { unfold unlink_succeeds. rewrite Hfault. simpl. apply bool_decide_eq_true_2, Hin. }
  unfold one_delete_and_gone. split.
  - destruct (provider w (File.path f) CloudinaryJs.image_options) as [d | e] eqn:Hp.
    + destruct (uploadAndCleanup_resolved_clean _ _ _ d Hp Hu) as (w' & Hrun & Hn & Hgone).
      rewrite (upload_image_run f b w _ w' Hrun). simpl. split; assumption.
    + destruct (uploadAndCleanup_rejected _ _ _ e Hp) as (w' & Hrun & Hn & Hgone).
      rewrite (upload_image_run f b w _ w' Hrun). simpl. split; [assumption | auto].
  - intros d Hp.
    rewrite <- (profile_prelude_provider f b w) in Hp.
    rewrite <- (profile_prelude_unlink f b w) in Hu.
    destruct (uploadAndCleanup_resolved_clean _ _ _ d Hp Hu) as (w' & Hrun & Hn & Hgone).
    destruct (upload_profile_descriptor f b w d w' Hrun) as (r & -> & _). simpl.
    rewrite profile_prelude_attempts in Hn. split; assumption.
Qed.

(** The amended C1 at the staged [photo.png]: transfer resolved, transfer
    rejected, and the profile route with the transfer resolved. *)
Lemma single_delete_when_unlink_succeeds_witness :
  one_delete_and_gone CloudinaryJs.upload_image (mkRequest (Some staged_png) [])
    (File.path staged_png) (world0 (Resolved descriptor_png) no_fault)
  ∧ one_delete_and_gone CloudinaryJs.upload_image (mkRequest (Some staged_png) [])
      (File.path staged_png) (world0 (Rejected network_error) no_fault)
  ∧ one_delete_and_gone CloudinaryJs.upload_profile (mkRequest (Some staged_png) [])
      (File.path staged_png) (world0 (Resolved descriptor_png) no_fault).
Proof.
  split; [| split].
  - apply (single_delete_when_unlink_succeeds staged_png []
             (world0 (Resolved descriptor_png) no_fault));
      vm_compute; reflexivity.
  - apply (single_delete_when_unlink_succeeds staged_png []
             (world0 (Rejected network_error) no_fault));
      vm_compute; reflexivity.
  - assert (Hin : File.path staged_png ∈ disk (world0 (Resolved descriptor_png) no_fault))
      by (vm_compute; reflexivity).
    apply (proj2 (single_delete_when_unlink_succeeds staged_png [] _ Hin eq_refl)
             descriptor_png).
    reflexivity.
Defined.

(** C2 (defect): staging succeeded and the provider rejects the upload with
    an error [e].  The image handler answers 200 with the success message and
    no [data]; the profile handler answers 500 with the detail of the
    TypeError raised on [result.secure_url].  Neither answer carries the
    provider's detail [message e]. *)
Theorem transfer_failure_answers_success
    (f : File.t) (b : list (string * Value)) (e : JsError) (w : World) :
  let w0 := set_provider (Rejected e) w in
  (CloudinaryJs.upload_image (mkRequest (Some f) b) w0).1
  = Normal (mkResponse 200 (VObj [("message", VStr "Image uploaded successfully")]))
  ∧ (CloudinaryJs.upload_profile (mkRequest (Some f) b) w0).1
    = Normal (mkResponse 500
                (VObj [("error", VStr "Server error");
                       ("details",
                         VStr "Cannot read properties of undefined (reading 'secure_url')")])).
Proof.
  intros w0. split.
  - destruct (uploadAndCleanup_rejected (File.path f) CloudinaryJs.image_options w0 e eq_refl)
      as (w' & Hrun & _).
    rewrite (upload_image_run f b w0 _ w' Hrun). reflexivity.
  - edestruct (uploadAndCleanup_rejected (File.path f)) as (w' & Hrun & _);
      [| apply (upload_profile_undefined f b w0 w'), Hrun].
    rewrite profile_prelude_provider. reflexivity.
Qed.

(** C6 (defect): the provider resolves with a descriptor [d] and the unlink
    calls fail.  The image handler answers 200 without the descriptor, the
    profile handler answers 500: the failed delete changes the reported
    outcome of a successful transfer. *)
Theorem cleanup_failure_loses_descriptor
    (f : File.t) (b : list (string * Value)) (d : list (string * Value)) (w : World) :
  let w0 := set_fault always_fault (set_provider (Resolved d) w) in
  (CloudinaryJs.upload_image (mkRequest (Some f) b) w0).1
  = Normal (mkResponse 200 (VObj [("message", VStr "Image uploaded successfully")]))
  ∧ (CloudinaryJs.upload_profile (mkRequest (Some f) b) w0).1
    = Normal (mkResponse 500
                (VObj [("error", VStr "Server error");
                       ("details",
                         VStr "Cannot read properties of undefined (reading 'secure_url')")])).
Proof.
  intros w0. split.
  - destruct (uploadAndCleanup_resolved_dirty (File.path f) CloudinaryJs.image_options
                w0 d eq_refl eq_refl) as (w' & Hrun & _).
    rewrite (upload_image_run f b w0 _ w' Hrun). reflexivity.
  - edestruct (uploadAndCleanup_resolved_dirty (File.path f)) as (w' & Hrun & _);
      [| | apply (upload_profile_undefined f b w0 w'), Hrun].
    + rewrite profile_prelude_provider. reflexivity.
    + rewrite profile_prelude_unlink. reflexivity.
Qed.












(* ===================================================================== *)
(** ** What a response body carries                                       *)
(* ===================================================================== *)

(** Serialising adds no string: every leaf of [wire v] is a leaf of [v]. *)
Lemma strings_of_wire v leaf : In leaf (strings_of (wire v)) → In leaf (strings_of v).
Proof.
  revert leaf.
  induction v as [| | | | | items IH | fields IH] using Value_forall_ind;
    intros leaf; simpl; auto.
  - induction IH as [| x l Hx _ IHl]; simpl; [tauto |].
    rewrite !in_app_iff. intros [Hs | Hs]; [left | right; auto].
    destruct x; try (apply Hx, Hs); simpl in Hs; contradiction.
  - induction IH as [| [k x] l Hx _ IHl]; simpl; [tauto |].
    rewrite flat_map_app, !in_app_iff. simpl in Hx.
    intros [Hs | Hs]; [left | right; auto].
    destruct x; cbn [flat_map app] in Hs; try contradiction;
      rewrite app_nil_r in Hs; apply Hx, Hs.
Qed.

Lemma mentions_wire p v : mentions p (wire v) = true → mentions p v = true.
Proof.
  unfold mentions. rewrite !existsb_exists.
  intros (s & Hin & Hs). exists s. split; [apply strings_of_wire, Hin | exact Hs].
Qed.

Lemma startsWith_app_l a b h : startsWith h (a +:+ b) = true → startsWith h a = true.
Proof.
  revert h. induction a as [| c a IH]; intros h; [destruct h; reflexivity |].
  change (String c a +:+ b) with (String c (a +:+ b)).
  destruct h as [| c' h]; simpl; [discriminate |].
  rewrite !andb_true_iff. intros [? ?]; split; auto.
Qed.

Lemma includes_app_l a b h : includes (a +:+ b) h = true → includes a h = true.
Proof.
  induction h as [| c h IH]; cbn [includes].
  - rewrite !orb_false_r. apply startsWith_app_l.
  - rewrite !orb_true_iff. intros [H | H]; [left; eapply startsWith_app_l, H | right; auto].
Qed.

Lemma startsWith_split a p : startsWith p a = true → ∃ rest, p = a +:+ rest.
Proof.
  revert p. induction a as [| c a IH]; intros p.
  - intros _. exists p. reflexivity.
  - destruct p as [| c' p]; simpl; [discriminate |].
    rewrite andb_true_iff. intros [->%Ascii.eqb_eq [rest ->]%IH].
    exists rest. reflexivity.
Qed.

(** The body of the image handler's answer mentions only what its message
    or the value under [data] mention. *)
Lemma mentions_image_payload p msg v :
  includes p msg = false →
  mentions p v = false →
  mentions p (wire (VObj [("message", VStr msg); ("data", v)])) = false.
Proof.
  intros Hmsg Hv.
  destruct (mentions p (wire _)) eqn:Hm; [| reflexivity].
  apply mentions_wire in Hm. unfold mentions in *.
  cbn [strings_of flat_map app existsb] in Hm.
  rewrite app_nil_r, Hmsg, Hv in Hm. discriminate.
Qed.

(** C7, as stated, fails on multer.js: the answer of /upload-single to a
    stored file lists the staged path under [file.path]. *)
Lemma upload_single_exposes_path :
  let w := world0 (Resolved descriptor_png) no_fault in
  ∃ r, (MulterJs.upload_single (mkRequest (Some staged_png) []) w).1 = Normal r
       ∧ status r = 200
       ∧ get_prop (assoc "file" match payload r with VObj o => o | _ => [] end) "path"
         = inr (VStr (File.path staged_png))
       ∧ mentions (File.path staged_png) (payload r) = true.
Proof. eexists. repeat split. Qed.

(** C7, amended: every answer of the /api/upload/image handler to a request
    with a file staged under [uploads/] consists of the fixed message and,
    under [data], the provider's result; the staged path occurs in it only if
    the provider's result carries it.  (The /upload-single handler of
    multer.js does list the staged path, under [file.path].) *)
Theorem upload_image_hides_path
    (f : File.t) (b : list (string * Value)) (w : World) (r : Response) :
  startsWith (File.path f) "uploads/" = true →
  (∀ d, provider w (File.path f) CloudinaryJs.image_options = Resolved d →
        mentions (File.path f) (VObj d) = false) →
  (CloudinaryJs.upload_image (mkRequest (Some f) b) w).1 = Normal r →
  mentions (File.path f) (payload r) = false.
Proof.
  intros [rest Hp]%startsWith_split Hprov.
  destruct (uploadAndCleanup_run (File.path f) CloudinaryJs.image_options w) as [w' Hrun].
  rewrite (upload_image_run f b w _ w' Hrun). intros [= <-]. cbn [payload].
  apply mentions_image_payload.
  - destruct (includes _ _) eqn:Hinc; [| reflexivity].
    rewrite Hp in Hinc. apply includes_app_l in Hinc. vm_compute in Hinc. discriminate.
  - unfold resolution.
    destruct (provider w (File.path f) CloudinaryJs.image_options) as [d | e] eqn:Hd;
      [destruct (unlink_succeeds (File.path f) w) |]; auto.
Qed.

(** The amended C7 at the staged [photo.png] and a provider result that does
    not carry its path. *)
Lemma upload_image_hides_path_witness :
  ∃ r, (CloudinaryJs.upload_image (mkRequest (Some staged_png) [])
          (world0 (Resolved descriptor_png) no_fault)).1 = Normal r
       ∧ status r = 200
       ∧ mentions (File.path staged_png) (payload r) = false.
Proof.
  eexists. split; [reflexivity |]. split; [reflexivity |].
  apply (upload_image_hides_path staged_png [] (world0 (Resolved descriptor_png) no_fault)).
  - reflexivity.
  - intros d [= <-]. reflexivity.
  - reflexivity.
Defined.

(* ===================================================================== *)
(** ** Generated names                                                    *)
(* ===================================================================== *)

Section StringFacts.

Lemma string_app_cons c a b : String c a +:+ b = String c (a +:+ b).
Proof. reflexivity. Qed.

Lemma string_app_nil_l b : "" +:+ b = b.
Proof. reflexivity. Qed.

Lemma string_app_assoc a b c : (a +:+ b) +:+ c = a +:+ (b +:+ c).
Proof.
  induction a as [| x a IH]; [reflexivity |].
  rewrite !string_app_cons. now rewrite IH.
Qed.

Lemma string_length_app a b :
  String.length (a +:+ b) = (String.length a + String.length b)%nat.
Proof.
  induction a as [| x a IH]; [reflexivity |].
  rewrite string_app_cons. simpl. now rewrite IH.
Qed.

(** Cancellation of a common suffix. *)
Lemma string_app_inv_tail a b e : a +:+ e = b +:+ e → a = b.
Proof.
  revert b. induction a as [| x a IH]; intros [| y b] H.
  - reflexivity.
  - apply (f_equal String.length) in H.
    rewrite !string_length_app in H. simpl in H. lia.
  - apply (f_equal String.length) in H.
    rewrite !string_length_app in H. simpl in H. lia.
  - rewrite !string_app_cons in H. injection H as -> H. f_equal. apply IH, H.
Qed.

(** A string is cut at its first dash in one way only. *)
Lemma cut_at_dash x x' y y' :
  dash_free x = true → dash_free x' = true →
  x +:+ "-" +:+ y = x' +:+ "-" +:+ y' → x = x' ∧ y = y'.
Proof.
  revert x'. induction x as [| c x IH]; intros [| c' x'] Hx Hx' H;
    rewrite ?string_app_cons, ?string_app_nil_l in H; simpl in Hx, Hx'.
  - injection H as ->. split; reflexivity.
  - injection H as <- _. discriminate.
  - injection H as -> _. discriminate.
  - injection H as -> H.
    apply andb_true_iff in Hx as [_ Hx]. apply andb_true_iff in Hx' as [_ Hx'].
    destruct (IH x' Hx Hx' H) as [-> ->]. split; reflexivity.
Qed.

Lemma pretty_N_char_not_dash d : Ascii.eqb (pretty_N_char d) "-"%char = false.
Proof. unfold pretty_N_char. repeat case_match; reflexivity. Qed.

Lemma pretty_N_go_dash_free x s :
  dash_free s = true → dash_free (pretty_N_go x s) = true.
Proof.
  revert s. induction (N.lt_wf_0 x) as [x _ IH]; intros s Hs.
  assert (x = 0 ∨ 0 < x)%N as [-> | Hpos] by lia.
  - rewrite pretty_N_go_0. exact Hs.
  - rewrite pretty_N_go_step by exact Hpos. apply IH.
    + apply N.div_lt; [exact Hpos | reflexivity].
    + simpl. rewrite pretty_N_char_not_dash. exact Hs.
Qed.

(** The decimal rendering of a number has no dash. *)
Lemma pretty_dash_free (n : N) : dash_free (pretty n) = true.
Proof.
  unfold pretty, pretty_N. case_decide; [reflexivity |].
  apply pretty_N_go_dash_free. reflexivity.
Qed.

End StringFacts.

(** The name produced by the [filename] callback of cloudinary.js. *)
Lemma CloudinaryJs_filename_run (inc : Multer.Incoming) (w : World) :
  (CloudinaryJs.filename inc w).1
  = Normal (CloudinaryJs.unique_name (Multer.originalname inc)
              (clock w (count is_now w)) (dice w (count is_random w))).
Proof.
  unfold CloudinaryJs.filename, mbind, async_bind, Date_now, Math_round_random_1E9.
  simpl. rewrite count_emit. simpl. rewrite Nat.add_0_r. reflexivity.
Qed.

(** C4, as stated, fails: two uploads of [photo.png] that read the same
    millisecond and draw the same integer are given the same name, and the
    name generated by multer.js has no random part at all. *)
Lemma same_tick_same_name :
  let inc := Multer.mkIncoming "image" "photo.png" "image/png" 2048 in
  let w := world0 (Resolved descriptor_png) no_fault in
  let first := CloudinaryJs.filename inc w in
  let second := CloudinaryJs.filename inc first.2 in
  first.1 = Normal "photo-1700000000123-42.png"
  ∧ second.1 = Normal "photo-1700000000123-42.png"
  ∧ (MulterJs.filename inc w).1 = Normal "photo-1700000000123.png".
Proof. vm_compute. repeat split. Qed.

(** C4, amended: in cloudinary.js the generated name is
    basename + '-' + timestamp + '-' + random-int + extension of the original
    filename; in multer.js it is basename + '-' + timestamp + extension.  Two
    uploads with the same original filename are given the same name exactly
    when they read the same timestamp and draw the same integer (in multer.js:
    read the same timestamp); in every other case their names differ. *)
Theorem staged_name_form (o : string) (t1 r1 t2 r2 : N) :
  CloudinaryJs.unique_name o t1 r1
  = Path.basename o (Path.extname o) +:+ "-" +:+ (pretty t1 +:+ "-" +:+ pretty r1)
      +:+ Path.extname o
  ∧ MulterJs.uniquename o t1
    = Path.basename o (Path.extname o) +:+ "-" +:+ pretty t1 +:+ Path.extname o
  ∧ (CloudinaryJs.unique_name o t1 r1 = CloudinaryJs.unique_name o t2 r2
     ↔ t1 = t2 ∧ r1 = r2)
  ∧ (MulterJs.uniquename o t1 = MulterJs.uniquename o t2 ↔ t1 = t2).
Proof.
  split; [reflexivity |]. split; [reflexivity |]. split.
  - split; [| intros [-> ->]; reflexivity].
    unfold CloudinaryJs.unique_name. intros H.
    apply (inj (String.app _)) in H. apply (inj (String.app "-")) in H.
    rewrite !string_app_assoc in H.
    apply cut_at_dash in H as [Ht Hr]; try apply pretty_dash_free.
    apply string_app_inv_tail in Hr.
    split; [apply (inj pretty), Ht | apply (inj pretty), Hr].
  - split; [| intros ->; reflexivity].
    unfold MulterJs.uniquename. intros H.
    apply (inj (String.app _)) in H. apply (inj (String.app "-")) in H.
    apply string_app_inv_tail in H. apply (inj pretty), H.
Qed.

(** The amended C4 at two draws that differ: the names differ. *)
Lemma staged_name_form_witness :
  CloudinaryJs.unique_name "photo.png" 1700000000123 42
  ≠ CloudinaryJs.unique_name "photo.png" 1700000000123 43.
Proof.
  intros H.
  apply (proj1 (proj1 (proj2 (proj2 (staged_name_form "photo.png" _ _ _ _))))) in H.
  destruct H as [_ H]. discriminate H.
Defined.

(* ===================================================================== *)
(** ** The validators                                                     *)
(* ===================================================================== *)

(** C3, as stated, fails: multer.js accepts [malware.exe] once it is declared
    as [image/png], its extension being outside the allowed set; and
    cloudinary.js rejects the spec's own example with a reason that names
    neither the extension nor the MIME type. *)
Lemma validator_counterexample :
  MulterJs.fileFilter_verdict disguised_exe = Multer.Accept
  ∧ ¬ In (Str.toLowerCase (Path.extname (Multer.originalname disguised_exe)))
        image_extensions
  ∧ CloudinaryJs.fileFilter_verdict malware_exe
    = Multer.Reject (mkError "Only images are allowed")
  ∧ names_attribute "Only images are allowed" = false.
Proof.
  split; [reflexivity |]. split; [| split; reflexivity].
  vm_compute. intros H. repeat destruct H as [H | H]; try discriminate H. exact H.
Qed.

Lemma existsb_eqb_In s l : existsb (String.eqb s) l = true ↔ In s l.
Proof.
  rewrite existsb_exists. split.
  - intros (x & Hin & ->%String.eqb_eq). exact Hin.
  - intros Hin. exists s. split; [exact Hin | apply String.eqb_refl].
Qed.

(** C3, amended.  cloudinary.js: a file is accepted only if its lower-cased
    extension and its declared MIME type each contain one of the words jpeg,
    jpg, png, gif, and it is accepted whenever the lower-cased extension is
    one of .jpeg .jpg .png .gif and the MIME type one of image/jpeg image/jpg
    image/png image/gif; every rejection carries the one reason 'Only images
    are allowed', whichever check failed.  multer.js: a file is accepted
    exactly when its declared MIME type is one of the four image types, the
    filename not being looked at; every rejection carries the one reason
    'Invalid file type. Only JPEG, PNG and GIF are allowed.'. *)
Theorem fileFilter_checks (file : Multer.Incoming) :
  let ext := Str.toLowerCase (Path.extname (Multer.originalname file)) in
  let mime := Multer.mimetype file in
  (CloudinaryJs.fileFilter_verdict file = Multer.Accept →
   CloudinaryJs.regexp_test CloudinaryJs.image_filetypes ext = true
   ∧ CloudinaryJs.regexp_test CloudinaryJs.image_filetypes mime = true)
  ∧ (In ext image_extensions → In mime image_mimes →
     CloudinaryJs.fileFilter_verdict file = Multer.Accept)
  ∧ (CloudinaryJs.fileFilter_verdict file ≠ Multer.Accept →
     CloudinaryJs.fileFilter_verdict file
     = Multer.Reject (mkError "Only images are allowed"))
  ∧ (MulterJs.fileFilter_verdict file = Multer.Accept ↔ In mime image_mimes)
  ∧ (MulterJs.fileFilter_verdict file ≠ Multer.Accept →
     MulterJs.fileFilter_verdict file
     = Multer.Reject (mkError "Invalid file type. Only JPEG, PNG and GIF are allowed.")).
Proof.
  intros ext mime.
  unfold CloudinaryJs.fileFilter_verdict, CloudinaryJs.filter_verdict,
    MulterJs.fileFilter_verdict.
  fold ext. fold mime.
  repeat split.
  - destruct (CloudinaryJs.regexp_test _ ext); [reflexivity |].
    rewrite andb_false_r in H. discriminate.
  - destruct (CloudinaryJs.regexp_test _ mime); [reflexivity |]. discriminate.
  - intros Hext Hmime.
    assert (CloudinaryJs.regexp_test CloudinaryJs.image_filetypes ext = true) as ->.
    { simpl in Hext. repeat destruct Hext as [<- | Hext]; try reflexivity. contradiction. }
    assert (CloudinaryJs.regexp_test CloudinaryJs.image_filetypes mime = true) as ->.
    { simpl in Hmime. repeat destruct Hmime as [<- | Hmime]; try reflexivity. contradiction. }
    reflexivity.
  - destruct (_ && _); [intros H; contradiction H |]; reflexivity.
  - destruct (existsb _ _) eqn:Hex; [| discriminate].
    intros _. apply existsb_eqb_In, Hex.
  - intros Hin%existsb_eqb_In. unfold image_mimes in Hin. fold mime. rewrite Hin. reflexivity.
  - destruct (existsb _ _); [intros H; contradiction H |]; reflexivity.
Qed.

(** The amended C3 at [photo.JPG] (accepted) and [malware.exe] (rejected). *)
Lemma fileFilter_checks_witness :
  CloudinaryJs.fileFilter_verdict photo_JPG = Multer.Accept
  ∧ CloudinaryJs.fileFilter_verdict malware_exe
    = Multer.Reject (mkError "Only images are allowed").
Proof.
  split.
  - apply (proj1 (proj2 (fileFilter_checks photo_JPG))).
    + right. left. reflexivity.
    + left. reflexivity.
  - apply (proj1 (proj2 (proj2 (fileFilter_checks malware_exe)))).
    discriminate.
Defined.

(* ===================================================================== *)
(** ** Validation before staging, and the size ceiling                    *)
(* ===================================================================== *)

Lemma fs_writes_emit e w :
  fs_writes (emit e w) = (fs_writes w + (if is_fs_write e then 1 else 0))%nat.
Proof. apply count_emit. Qed.

(** Each configured filter answers from the name and the declared type only,
    and leaves the scratch area alone. *)
Lemma configured_filter opts inc w :
  In opts configured →
  ∃ verdict w1,
    Multer.fileFilter opts inc w = (Normal verdict, w1)
    ∧ disk w1 = disk w ∧ fs_writes w1 = fs_writes w
    ∧ (∀ n, ∃ w2, Multer.fileFilter opts (with_bytes n inc) w = (Normal verdict, w2)
                  ∧ disk w2 = disk w).
Proof.
  intros Hin. simpl in Hin.
  destruct Hin as [<- | [<- | [<- | [<- | []]]]].
  - exists (MulterJs.fileFilter_verdict inc), (emit (EvLog ("File received: line 39 "
      +:+ Multer.originalname inc +:+ " " +:+ Multer.mimetype inc +:+ " "
      +:+ Multer.fieldname inc)) w).
    repeat split.
    + rewrite fs_writes_emit. simpl. apply Nat.add_0_r.
    + intros n. eexists. split; reflexivity.
  - exists (CloudinaryJs.fileFilter_verdict inc), w. repeat split.
    intros n. exists w. split; reflexivity.
  - exists (CloudinaryJs.fileFilter_verdict inc), w. repeat split.
    intros n. exists w. split; reflexivity.
  - eexists _, w. repeat split. intros n. exists w. split; reflexivity.
Qed.

(** C5: for each configured middleware, a file the validator rejects ends
    the request with the validator's error before any storage callback runs:
    the scratch directory is the same set of paths as before, no write is
    recorded, and the route handler is not run. *)
Theorem rejected_file_never_staged
    (opts : Multer.Options) (inc : Multer.Incoming) (fields : list (string * Value))
    (e : JsError) (w : World) :
  In opts configured →
  (Multer.fileFilter opts inc w).1 = Normal (Multer.Reject e) →
  let r := Multer.single opts (Some inc) fields w in
  r.1 = Throw e
  ∧ disk r.2 = disk w
  ∧ fs_writes r.2 = fs_writes w
  ∧ ∀ handler, Multer.route opts handler (Some inc) fields w = (Throw e, r.2).
Proof.
  intros Hin Hrej r.
  destruct (configured_filter opts inc w Hin) as (verdict & w1 & Hf & Hd & Hw & _).
  rewrite Hf in Hrej. simpl in Hrej. injection Hrej as ->.
  assert (Hr : r = (Throw e, w1)).
  { subst r. unfold Multer.single, mbind, async_bind. rewrite Hf. reflexivity. }
  rewrite Hr. simpl. repeat split; try assumption.
  intros handler. unfold Multer.route, mbind, async_bind. fold r. rewrite Hr. reflexivity.
Qed.

(** C5 at [malware.exe] on the image route. *)
Lemma rejected_file_never_staged_witness :
  let r := Multer.single CloudinaryJs.upload (Some malware_exe) []
             (world0 (Resolved descriptor_png) no_fault) in
  r.1 = Throw (mkError "Only images are allowed")
  ∧ disk r.2 = disk (world0 (Resolved descriptor_png) no_fault).
Proof.
  intros r.
  destruct (rejected_file_never_staged CloudinaryJs.upload malware_exe []
              (mkError "Only images are allowed")
              (world0 (Resolved descriptor_png) no_fault)) as (H1 & H2 & _).
  - right. left. reflexivity.
  - reflexivity.
  - split; [exact H1 | exact H2].
Defined.




(* ===================================================================== *)
(** ** Worked scenarios                                                   *)
(* ===================================================================== *)

Example extname_samples :
  Path.extname "photo.JPG" = ".JPG"
  ∧ Path.extname "malware.exe" = ".exe"
  ∧ Path.extname "archive.tar.gz" = ".gz"
  ∧ Path.extname ".bashrc" = ""
  ∧ Path.extname "uploads.d/readme" = "".
Proof. repeat split. Qed.

Example basename_samples :
  Path.basename "photo.JPG" ".JPG" = "photo"
  ∧ Path.basename "../../etc/passwd" "" = "passwd"
  ∧ Path.basename "a/b/report.final.pdf" ".pdf" = "report.final".
Proof. repeat split. Qed.

Example kilobytes_samples :
  Str.kilobytes_toFixed2 2048 = "2.00" ∧ Str.kilobytes_toFixed2 245234 = "239.49".
Proof. split; vm_compute; reflexivity. Qed.

(** A 2 KB [photo.JPG] declared as [image/jpeg] goes through
    /api/upload/image: it is staged under a name that keeps [.JPG], sent to
    the provider, deleted locally, and the provider's result is returned. *)
Example photo_JPG_round_trip :
  let w := mkWorld ∅ (λ _ _, Resolved descriptor_png) no_fault no_denial
             (λ _, 1700000000123%N) (λ _, 42%N) [] in
  let r := Multer.route CloudinaryJs.upload CloudinaryJs.upload_image
             (Some photo_JPG) [] w in
  r.1 = Normal (mkResponse 200
                  (VObj [("message", VStr "Image uploaded successfully");
                         ("data", VObj descriptor_png)]))
  ∧ elements (disk r.2) = []
  ∧ List.filter (λ e, is_fs_write e || is_unlink e) (trace r.2)
    = [EvWrite "uploads/photo-1700000000123-42.JPG";
       EvUnlink "uploads/photo-1700000000123-42.JPG" true].
Proof. vm_compute. repeat split. Qed.

(* ===================================================================== *)
(** ** Further properties of cloudinary.js: the cleanup helpers           *)
(* ===================================================================== *)

Lemma count_set_disk f d w : count f (set_disk d w) = count f w.
Proof. reflexivity. Qed.

Lemma remove_subseteq (d : gset string) (p : string) : d ∖ {[p]} ⊆ d.
Proof. intros x Hx. apply elem_of_difference in Hx. tauto. Qed.

Ltac count_events :=
  unfold upload_calls, fs_writes, unlink_calls, unlink_attempts;
  repeat (rewrite count_emit || rewrite count_set_disk);
  cbn [is_upload is_fs_write is_unlink is_unlink_of];
  rewrite ?String.eqb_refl.

(** One run of [deleteLocalFile]. *)
Lemma deleteLocalFile_run (p : string) (w : World) :
  let r := CloudinaryJs.deleteLocalFile p w in
  r.1 = Normal (unlink_succeeds p w)
  ∧ unlink_attempts p r.2 = S (unlink_attempts p w)
  ∧ unlink_calls r.2 = S (unlink_calls w)
  ∧ disk r.2 = (if unlink_succeeds p w then disk w ∖ {[p]} else disk w)
  ∧ unlink_succeeds p w && unlink_succeeds p r.2 = false.
Proof.
  unfold CloudinaryJs.deleteLocalFile. unfold_async.
  destruct (unlink_succeeds p w) eqn:Hu.
  - rewrite (fs_unlink_ok _ _ Hu). cbn [fst snd].
    repeat split; try (count_events; lia).
    unfold unlink_succeeds. cbn [disk emit set_disk].
    rewrite (bool_decide_eq_false_2 _ (removed_is_gone p (disk w))).
    apply andb_false_r.
  - destruct (fs_unlink_fails _ _ Hu) as [e ->]. cbn [fst snd].
    repeat split; count_events; lia.
Qed.

(** X1 (cloudinary.js, [deleteLocalFile]): the helper never rejects; it
    returns [true] exactly when its unlink succeeded, makes one delete attempt
    on the path, removes that path and no other when it succeeds and leaves
    the disk as it is when it fails; it cannot succeed twice in a row. *)
Theorem deleteLocalFile_reports_outcome (p : string) (w : World) :
  let r := CloudinaryJs.deleteLocalFile p w in
  r.1 = Normal (unlink_succeeds p w)
  ∧ unlink_attempts p r.2 = S (unlink_attempts p w)
  ∧ unlink_calls r.2 = S (unlink_calls w)
  ∧ disk r.2 = (if unlink_succeeds p w then disk w ∖ {[p]} else disk w)
  ∧ unlink_succeeds p w && unlink_succeeds p r.2 = false.
Proof. exact (deleteLocalFile_run p w). Qed.

(** X2 (cloudinary.js, [uploadAndCleanup]): whatever the provider and the
    file system answer, the helper calls the provider exactly once (no
    retry), writes nothing, unlinks nothing but [filePath], makes one delete
    attempt on it, or two when the first one failed after a resolved upload,
    and leaves every other path on disk as it was. *)
Theorem uploadAndCleanup_footprint (filePath : string) (options : Value) (w : World) :
  let r := CloudinaryJs.uploadAndCleanup filePath options w in
  let attempts := (unlink_attempts filePath r.2 - unlink_attempts filePath w)%nat in
  upload_calls r.2 = S (upload_calls w)
  ∧ fs_writes r.2 = fs_writes w
  ∧ (unlink_calls r.2 - unlink_calls w)%nat = attempts
  ∧ attempts = match provider w filePath options with
               | Resolved _ => if unlink_succeeds filePath w then 1%nat else 2%nat
               | Rejected _ => 1%nat
               end
  ∧ disk r.2 ⊆ disk w
  ∧ disk w ∖ {[filePath]} ⊆ disk r.2.
Proof.
  unfold CloudinaryJs.uploadAndCleanup. unfold_async.
  set (w1 := emit (EvUpload filePath) w).
  assert (Hw1 : unlink_succeeds filePath w1 = unlink_succeeds filePath w)
    by apply unlink_succeeds_emit_upload.
  destruct (provider w filePath options) as [d | e];
    destruct (unlink_succeeds filePath w) eqn:Hu.
  - rewrite (fs_unlink_ok _ _ Hw1). cbn [fst snd]. subst w1.
    refine (conj _ (conj _ (conj _ (conj _ (conj _ _)))));
      try (count_events; lia); cbn [disk emit set_disk];
      first [reflexivity | apply remove_subseteq].
  - destruct (fs_unlink_fails _ _ Hw1) as [e1 ->].
    set (w2 := emit (EvUnlink filePath false) w1).
    destruct (unlink_succeeds filePath w2) eqn:Hu2.
    + rewrite (fs_unlink_ok _ _ Hu2). cbn [fst snd]. subst w2 w1.
      refine (conj _ (conj _ (conj _ (conj _ (conj _ _)))));
      try (count_events; lia); cbn [disk emit set_disk];
      first [reflexivity | apply remove_subseteq].
    + destruct (fs_unlink_fails _ _ Hu2) as [e2 ->]. cbn [fst snd]. subst w2 w1.
      refine (conj _ (conj _ (conj _ (conj _ (conj _ _)))));
      try (count_events; lia); cbn [disk emit set_disk];
      first [reflexivity | apply remove_subseteq].
  - rewrite (fs_unlink_ok _ _ Hw1). cbn [fst snd]. subst w1.
    refine (conj _ (conj _ (conj _ (conj _ (conj _ _)))));
      try (count_events; lia); cbn [disk emit set_disk];
      first [reflexivity | apply remove_subseteq].
  - destruct (fs_unlink_fails _ _ Hw1) as [e1 ->]. cbn [fst snd]. subst w1.
    refine (conj _ (conj _ (conj _ (conj _ (conj _ _)))));
      try (count_events; lia); cbn [disk emit set_disk];
      first [reflexivity | apply remove_subseteq].
Qed.

(* ===================================================================== *)
(** ** Further properties of cloudinary.js: what the handlers answer      *)
(* ===================================================================== *)

(** X3 (cloudinary.js, handler of /api/upload/image): whenever the handler
    runs on a request whose [req.file] the middleware has set, it answers
    200: the [catch] arm of the handler (status 500, [deleteLocalFile]) is
    never entered, the world is left as [uploadAndCleanup] left it, and
    [data] is the provider's result when the upload resolved and the unlink
    after it succeeded, and is absent otherwise.  (A part the middleware
    refuses does not reach the handler.) *)
Theorem upload_image_always_200 (f : File.t) (b : list (string * Value)) (w : World) :
  CloudinaryJs.upload_image (mkRequest (Some f) b) w
  = (Normal (mkResponse 200
               (wire (VObj [("message", VStr "Image uploaded successfully");
                            ("data", resolution (File.path f)
                                       CloudinaryJs.image_options w)]))),
     (CloudinaryJs.uploadAndCleanup (File.path f) CloudinaryJs.image_options w).2).
Proof.
  destruct (uploadAndCleanup_run (File.path f) CloudinaryJs.image_options w) as [w' Hrun].
  rewrite (upload_image_run f b w _ w' Hrun), Hrun. reflexivity.
Qed.

Lemma upload_profile_resolved f b w d w' :
  CloudinaryJs.uploadAndCleanup (File.path f)
    (CloudinaryJs.profile_options (clock w (count is_now w))) (profile_prelude f b w)
  = (Normal (VObj d), w') →
  (CloudinaryJs.upload_profile (mkRequest (Some f) b) w).1
  = Normal (mkResponse 200 (wire (profile_success b d))).
Proof.
  unfold profile_prelude, CloudinaryJs.upload_profile; simpl.
  unfold mbind, async_bind, try_catch, console_log, Date_now, mret, async_ret.
  destruct (negb (truthy (assoc "username" b)) || negb (truthy (assoc "userId" b)));
    rewrite ?count_now_log; simpl; intros ->; reflexivity.
Qed.

(** X4 (cloudinary.js, handler of /api/upload/profile): whenever the
    handler runs on a request whose [req.file] the middleware has set, it
    answers 200, with the avatar url and id read from the provider's result,
    exactly when the upload resolved and the unlink after it succeeded; in
    every other case it answers 500 with one fixed body, whose detail is
    the TypeError text and never the provider's message or the fallback
    'failed to upload profile image'.  Missing [username] or [userId] change
    nothing but the user record echoed back.  (A part the middleware refuses
    does not reach the handler.) *)
Theorem upload_profile_answer (f : File.t) (b : list (string * Value)) (w : World) :
  (CloudinaryJs.upload_profile (mkRequest (Some f) b) w).1
  = Normal
      match provider w (File.path f)
              (CloudinaryJs.profile_options (clock w (count is_now w))) with
      | Resolved d =>
          if unlink_succeeds (File.path f) w
          then mkResponse 200 (wire (profile_success b d))
          else mkResponse 500 profile_failure
      | Rejected _ => mkResponse 500 profile_failure
      end.
Proof.
  destruct (uploadAndCleanup_run (File.path f)
              (CloudinaryJs.profile_options (clock w (count is_now w)))
              (profile_prelude f b w)) as [w' Hrun].
  unfold resolution in Hrun.
  rewrite profile_prelude_provider, profile_prelude_unlink in Hrun.
  destruct (provider w (File.path f) _) as [d | e];
    [destruct (unlink_succeeds (File.path f) w) |].
  - apply (upload_profile_resolved f b w d w' Hrun).
  - apply (upload_profile_undefined f b w w' Hrun).
  - apply (upload_profile_undefined f b w w' Hrun).
Qed.

(* ===================================================================== *)
(** ** Further properties of cloudinary.js: the file filters              *)
(* ===================================================================== *)

Lemma includes_unfold n h :
  includes n h
  = startsWith h n || match h with
                      | EmptyString => false
                      | String _ h' => includes n h'
                      end.
Proof. destruct h; reflexivity. Qed.

Lemma startsWith_app h rest : startsWith (h +:+ rest) h = true.
Proof.
  induction h as [| c h IH]; [destruct rest; reflexivity |].
  rewrite string_app_cons. simpl. rewrite Ascii.eqb_refl. exact IH.
Qed.

(** [includes] is occurrence as a substring. *)
Lemma includes_spec n h : includes n h = true ↔ ∃ a b, h = a +:+ n +:+ b.
Proof.
  split.
  - induction h as [| c h IH]; rewrite includes_unfold, orb_true_iff.
    + intros [H | H]; [| discriminate].
      apply startsWith_split in H as [rest ->]. exists "", rest. reflexivity.
    + intros [H | H].
      * apply startsWith_split in H as [rest ->]. exists "", rest. reflexivity.
      * destruct (IH H) as (a & b & ->). exists (String c a), b. reflexivity.
  - intros (a & b & ->). induction a as [| c a IH].
    + rewrite string_app_nil_l, includes_unfold, startsWith_app. reflexivity.
    + rewrite string_app_cons, includes_unfold. cbn [includes] in IH.
      rewrite IH. apply orb_true_r.
Qed.

Lemma regexp_test_spec words s :
  CloudinaryJs.regexp_test words s = true ↔ contains_one words s.
Proof.
  unfold CloudinaryJs.regexp_test, contains_one. rewrite existsb_exists. split.
  - intros (word & Hin & (a & b & ->)%includes_spec). eauto.
  - intros (word & a & b & Hin & ->). exists word. split; [exact Hin |].
    apply includes_spec. eauto.
Qed.

(** X5 (cloudinary.js, the three [fileFilter]s): a file is accepted exactly
    when one of the words of the pattern occurs somewhere in its lower-cased
    extension and one of them occurs somewhere in its declared MIME type;
    what stands before and after the word is not looked at. *)
Theorem filter_accepts_iff_contains
    (filetypes : list string) (failure : string) (file : Multer.Incoming) :
  CloudinaryJs.filter_verdict filetypes failure file = Multer.Accept
  ↔ contains_one filetypes
      (Str.toLowerCase (Path.extname (Multer.originalname file)))
    ∧ contains_one filetypes (Multer.mimetype file).
Proof.
  unfold CloudinaryJs.filter_verdict. rewrite <- !regexp_test_spec.
  destruct (CloudinaryJs.regexp_test filetypes (Multer.mimetype file));
    destruct (CloudinaryJs.regexp_test filetypes (Str.toLowerCase _)); simpl;
    split; try discriminate; try tauto; intros [? ?]; discriminate.
Qed.

Lemma filter_accepts_iff_contains_witness :
  CloudinaryJs.fileFilter_verdict
    (Multer.mkIncoming "image" "shell.jpgx" "application/x-png-archive" 10)
  = Multer.Accept.
Proof.
  apply (proj2 (filter_accepts_iff_contains _ _ _)). split.
  - exists "jpg", ".", "x". split; [right; left; reflexivity | reflexivity].
  - exists "png", "application/x-", "-archive".
    split; [right; right; left; reflexivity | reflexivity].
Defined.

(** X6 (cloudinary.js, the three [fileFilter]s): a file whose name has no
    extension is rejected by the image filter and by the document filter,
    whatever its declared type. *)
Theorem no_extension_is_rejected (file : Multer.Incoming) :
  Path.extname (Multer.originalname file) = "" →
  CloudinaryJs.fileFilter_verdict file = Multer.Reject (mkError "Only images are allowed")
  ∧ document_verdict file = Multer.Reject (mkError "Only document files are allowed").
Proof.
  intros Hext.
  unfold document_verdict, CloudinaryJs.fileFilter_verdict, CloudinaryJs.filter_verdict.
  rewrite Hext. cbn [Str.toLowerCase].
  assert (CloudinaryJs.regexp_test CloudinaryJs.image_filetypes "" = false) as ->
    by reflexivity.
  assert (CloudinaryJs.regexp_test CloudinaryJs.document_filetypes "" = false) as ->
    by reflexivity.
  rewrite !andb_false_r. split; reflexivity.
Qed.

Lemma no_extension_is_rejected_witness :
  CloudinaryJs.fileFilter_verdict (Multer.mkIncoming "image" ".png" "image/png" 10)
  = Multer.Reject (mkError "Only images are allowed").
Proof.
  apply (no_extension_is_rejected (Multer.mkIncoming "image" ".png" "image/png" 10)).
  reflexivity.
Defined.

(** X7 (cloudinary.js, [documentUpload]): a file declared as [text/plain]
    or as [application/msword] is rejected under every filename, the words
    pdf, doc, docx, txt occurring in neither type. *)
Theorem plain_text_and_msword_rejected (file : Multer.Incoming) :
  In (Multer.mimetype file) ["text/plain"; "application/msword"] →
  document_verdict file = Multer.Reject (mkError "Only document files are allowed").
Proof.
  intros Hin. unfold document_verdict, CloudinaryJs.filter_verdict.
  assert (CloudinaryJs.regexp_test CloudinaryJs.document_filetypes
            (Multer.mimetype file) = false) as ->.
  { simpl in Hin. destruct Hin as [<- | [<- | []]]; reflexivity. }
  reflexivity.
Qed.

Lemma plain_text_and_msword_rejected_witness :
  document_verdict (Multer.mkIncoming "doc" "notes.txt" "text/plain" 10)
  = Multer.Reject (mkError "Only document files are allowed").
Proof.
  apply (plain_text_and_msword_rejected
           (Multer.mkIncoming "doc" "notes.txt" "text/plain" 10)).
  left. reflexivity.
Defined.

Section LowerCase.

Lemma lower_char_slash c :
  Ascii.eqb (Str.lower_char c) "/"%char = Ascii.eqb c "/"%char.
Proof. destruct c as [[] [] [] [] [] [] [] []]; reflexivity. Qed.

Lemma lower_char_dot c :
  Ascii.eqb (Str.lower_char c) "."%char = Ascii.eqb c "."%char.
Proof. destruct c as [[] [] [] [] [] [] [] []]; reflexivity. Qed.

Lemma get_toLowerCase i s :
  String.get i (Str.toLowerCase s) = option_map Str.lower_char (String.get i s).
Proof.
  revert i. induction s as [| c s IH]; intros [| i]; simpl; auto.
Qed.

Lemma length_toLowerCase s : String.length (Str.toLowerCase s) = String.length s.
Proof. induction s as [| c s IH]; simpl; congruence. Qed.

Lemma substring_toLowerCase a m s :
  String.substring a m (Str.toLowerCase s) = Str.toLowerCase (String.substring a m s).
Proof.
  revert a m. induction s as [| c s IH]; intros [| a] [| m]; simpl; auto.
  now rewrite IH.
Qed.

Lemma extname_scan_toLowerCase s n st :
  Path.extname_scan (Str.toLowerCase s) n st = Path.extname_scan s n st.
Proof.
  revert st. induction n as [| i IH]; intros st; [reflexivity |].
  cbn [Path.extname_scan]. rewrite get_toLowerCase.
  destruct (String.get i s) as [c |]; [| reflexivity].
  cbn [option_map]. rewrite lower_char_slash, lower_char_dot.
  destruct (Ascii.eqb c "/"); [destruct (negb _); [reflexivity | apply IH] |].
  apply IH.
Qed.

(** Taking the extension and lower-casing commute. *)
Lemma extname_toLowerCase s :
  Path.extname (Str.toLowerCase s) = Str.toLowerCase (Path.extname s).
Proof.
  unfold Path.extname.
  rewrite length_toLowerCase, extname_scan_toLowerCase.
  destruct (_ || _); [reflexivity |].
  unfold Str.slice. apply substring_toLowerCase.
Qed.

End LowerCase.

(** X8 (cloudinary.js, the three [fileFilter]s): the case of the filename
    does not matter: two names that are equal up to case are given the same
    verdict. *)
Theorem filter_ignores_filename_case
    (filetypes : list string) (failure : string) (file : Multer.Incoming)
    (name1 name2 : string) :
  Str.toLowerCase name1 = Str.toLowerCase name2 →
  CloudinaryJs.filter_verdict filetypes failure (rename name1 file)
  = CloudinaryJs.filter_verdict filetypes failure (rename name2 file).
Proof.
  intros Heq. unfold CloudinaryJs.filter_verdict, rename. cbn [Multer.originalname
    Multer.mimetype].
  rewrite <- !extname_toLowerCase, Heq. reflexivity.
Qed.

Lemma filter_ignores_filename_case_witness :
  CloudinaryJs.fileFilter_verdict (rename "PHOTO.Jpg" photo_JPG)
  = CloudinaryJs.fileFilter_verdict (rename "photo.jpg" photo_JPG).
Proof.
  apply (filter_ignores_filename_case _ _ photo_JPG "PHOTO.Jpg" "photo.jpg").
  reflexivity.
Defined.

(* ===================================================================== *)
(** ** Further properties: generated names hold no path separator         *)
(* ===================================================================== *)

Section SlashFree.

Lemma slash_free_app a b : slash_free (a +:+ b) = slash_free a && slash_free b.
Proof.
  induction a as [| c a IH]; [reflexivity |].
  rewrite string_app_cons. simpl. rewrite IH. apply andb_assoc.
Qed.

Lemma slash_free_get s :
  (∀ i, String.get i s ≠ Some "/"%char) → slash_free s = true.
Proof.
  induction s as [| c s IH]; intros H; [reflexivity |]. simpl.
  apply andb_true_iff. split.
  - apply negb_true_iff, Ascii.eqb_neq. intros ->. apply (H 0%nat). reflexivity.
  - apply IH. intros i. apply (H (S i)).
Qed.

Lemma get_Some_lt i s c : String.get i s = Some c → (i < String.length s)%nat.
Proof.
  revert i. induction s as [| x s IH]; intros [| i]; simpl; try discriminate.
  - lia.
  - intros H%IH. lia.
Qed.

Lemma get_lt_Some i s : (i < String.length s)%nat → ∃ c, String.get i s = Some c.
Proof.
  revert i. induction s as [| x s IH]; intros [| i]; simpl; try lia; eauto.
  intros H. apply IH. lia.
Qed.

Lemma length_substring a m s :
  (a + m ≤ String.length s)%nat → String.length (String.substring a m s) = m.
Proof.
  revert a m. induction s as [| x s IH]; intros a m H.
  - simpl in H. assert (a = 0%nat ∧ m = 0%nat) as [-> ->] by lia. reflexivity.
  - destruct a as [| a].
    + destruct m as [| m]; [reflexivity |]. simpl. rewrite IH; [reflexivity |].
      simpl in H. lia.
    + simpl. apply IH. simpl in H. lia.
Qed.

(** A slice over clean positions holds no separator. *)
Lemma slice_clean path a b :
  0 ≤ a → clean path a b → slash_free (Str.slice path a b) = true.
Proof.
  intros Ha Hclean. apply slash_free_get. intros i. unfold Str.slice.
  destruct (lt_dec i (Z.to_nat (b - a))) as [Hlt | Hge].
  - rewrite String.substring_correct1 by exact Hlt. apply Hclean. lia.
  - rewrite String.substring_correct2 by lia. discriminate.
Qed.

Lemma clean_step path (i : nat) b c :
  String.get i path = Some c → c ≠ "/"%char →
  clean path (Z.of_nat (S i)) b → clean path (Z.of_nat i) b.
Proof.
  intros Hget Hc Hclean j Hj.
  destruct (decide (j = i)) as [-> | Hne].
  - rewrite Hget. congruence.
  - apply Hclean. lia.
Qed.

Lemma slashes_step path (i : nat) b :
  String.get i path = Some "/"%char →
  slashes path (Z.of_nat (S i)) b → slashes path (Z.of_nat i) b.
Proof.
  intros Hget Hs j Hj.
  destruct (decide (j = i)) as [-> | Hne]; [exact Hget | apply Hs; lia].
Qed.

Lemma clean_weaken path a a' b : a ≤ a' → clean path a b → clean path a' b.
Proof. intros Hle H j Hj. apply H. lia. Qed.

End SlashFree.

Section ExtnameScan.
Variable path : string.

Lemma ext_inv_post n st : ext_inv path n st → ext_post path st.
Proof.
  intros [(He & Hsd & _) | (Hm & Hle & Hcl & Hsl & [Hsd | Hsd])]; [left; exact Hsd | left; exact Hsd |].
  right. repeat split; try lia; try assumption.
  eapply clean_weaken; [| exact Hcl]. lia.
Qed.

(** The state after a character that is not a separator. *)
Lemma ext_inv_mid (i : nat) c sd sp e pds :
  String.get i path = Some c → c ≠ "/"%char →
  Z.of_nat (S i) ≤ e ≤ Str.len path →
  clean path (Z.of_nat (S i)) e →
  slashes path e (Str.len path) →
  sd = -1 ∨ Z.of_nat i ≤ sd < e →
  ext_inv path i (Path.mkExt sd sp e false pds).
Proof.
  intros Hget Hc Hle Hcl Hsl Hsd. right. cbn.
  repeat split; try lia; try assumption.
  eapply clean_step; eassumption.
Qed.

Lemma extname_scan_post n st :
  ext_inv path n st → ext_post path (Path.extname_scan path n st).
Proof.
  revert st. induction n as [| i IH]; intros st Hinv; [eapply ext_inv_post, Hinv |].
  cbn [Path.extname_scan].
  destruct (String.get i path) as [c |] eqn:Hget; [| eapply ext_inv_post, Hinv].
  pose proof (get_Some_lt _ _ _ Hget) as Hlt.
  destruct st as [sd sp e m pds]. cbn [Path.startDot Path.startPart Path.end_
    Path.matchedSlash Path.preDotState].
  destruct (Ascii.eqb c "/") eqn:Hc.
  - apply Ascii.eqb_eq in Hc. subst c. destruct m; cbn [negb].
    + apply IH. destruct Hinv as [(He & Hsd & _ & Hsl) | (Hm & _)]; [| discriminate Hm].
      left. cbn in *. repeat split; try assumption. apply slashes_step; assumption.
    + destruct (ext_inv_post _ _ Hinv) as [Hsd | Hf]; [left | right]; assumption.
  - apply Ascii.eqb_neq in Hc. apply IH.
    destruct Hinv as [(He & Hsd & _ & Hsl) | (Hm & Hle & Hcl & Hsl & Hsd)]; cbn in *.
    + subst e sd. cbn -[ext_inv].
      assert (Hvac : clean path (Z.of_nat (S i)) (Z.of_nat i + 1)) by (intros j Hj; lia).
      assert (Hsl' : slashes path (Z.of_nat i + 1) (Str.len path))
        by (intros j Hj; apply Hsl; lia).
      assert (Hb : Z.of_nat (S i) ≤ Z.of_nat i + 1 ≤ Str.len path)
        by (unfold Str.len; lia).
      destruct (Ascii.eqb c "."); cbn -[ext_inv];
        eapply ext_inv_mid; try eassumption; first [left; reflexivity | right; lia].
    + subst m.
      assert ((e =? -1) = false) as -> by (apply Z.eqb_neq; lia).
      cbn -[ext_inv].
      destruct (Ascii.eqb c "."); destruct (sd =? -1) eqn:Hsdq; cbn -[ext_inv];
        try destruct (negb (pds =? 1)); cbn -[ext_inv];
        eapply ext_inv_mid; try eassumption;
        first [ right; lia
              | apply Z.eqb_eq in Hsdq; left; exact Hsdq
              | apply Z.eqb_neq in Hsdq; right; lia ].
Qed.

(** Shape of [extname]: empty, or the slice from the last dot of the last
    component to the end of that component. *)
Lemma extname_shape :
  Path.extname path = ""
  ∨ ∃ sd e, Path.extname path = Str.slice path sd e ∧ ext_found path sd e.
Proof.
  unfold Path.extname.
  set (st := Path.extname_scan path _ _).
  assert (Hpost : ext_post path st).
  { apply extname_scan_post. left. cbn. repeat split. intros j Hj.
    unfold Str.len in Hj. lia. }
  destruct (Path.startDot st =? -1) eqn:Hsd; [left; reflexivity |].
  destruct (_ || _); [left; reflexivity |].
  right. exists (Path.startDot st), (Path.end_ st). split; [reflexivity |].
  destruct Hpost as [H | H]; [| exact H]. apply Z.eqb_neq in Hsd. contradiction.
Qed.

End ExtnameScan.

Section BasenameScan.
Variable path : string.

Lemma basename_plain_post n st :
  (n ≤ String.length path)%nat →
  base_inv path n st → base_post path (Path.basename_plain_scan path n st).
Proof.
  revert st. induction n as [| i IH]; intros st Hn (Hstart & Hinv).
  - cbn. destruct Hinv as [(Hb & _) | (_ & Hle & Hcl)]; [left; exact Hb | right].
    rewrite Hstart. split; [lia | exact Hcl].
  - cbn [Path.basename_plain_scan].
    destruct (get_lt_Some i path ltac:(lia)) as [c Hget]. rewrite Hget.
    destruct st as [s0 b m x f]. cbn in Hstart, Hinv. subst s0.
    cbn [Path.start Path.bend Path.bmatchedSlash Path.extIdx Path.firstNonSlashEnd].
    destruct (Ascii.eqb c "/") eqn:Hc.
    + apply Ascii.eqb_eq in Hc. subst c. destruct m; cbn [negb].
      * apply IH; [lia |]. split; [reflexivity |]. left.
        destruct Hinv as [(Hb & _) | (Hm & _)]; [| discriminate Hm]. split; auto.
      * destruct Hinv as [(_ & Hm) | (_ & Hle & Hcl)]; [discriminate Hm |].
        right. cbn. split; [lia |]. eapply clean_weaken; [| exact Hcl]. lia.
    + apply Ascii.eqb_neq in Hc.
      destruct Hinv as [(Hb & Hm) | (Hm & Hle & Hcl)].
      * subst b. cbn [Z.eqb]. apply IH; [lia |]. split; [reflexivity |]. right. cbn.
        repeat split; try lia. intros j Hj.
        assert (j = i) as -> by lia. rewrite Hget. congruence.
      * assert ((b =? -1) = false) as -> by (apply Z.eqb_neq; lia).
        apply IH; [lia |]. split; [reflexivity |]. right. cbn.
        repeat split; try lia; try assumption. eapply clean_step; eassumption.
Qed.

Variables sd e : Z.
Hypothesis Hfound : ext_found path sd e.

Lemma suffix_len : Str.len (Str.slice path sd e) = e - sd.
Proof.
  destruct Hfound as (Hsd & He & _). unfold Str.len, Str.slice in *.
  rewrite length_substring by lia. lia.
Qed.

Lemma suffix_get (i : nat) :
  sd ≤ Z.of_nat i < e →
  String.get (Z.to_nat (Z.of_nat i - sd)) (Str.slice path sd e) = String.get i path.
Proof.
  intros Hi. destruct Hfound as (Hsd & _). unfold Str.slice.
  rewrite String.substring_correct1 by lia. f_equal. lia.
Qed.

(** Below the dot: the suffix is matched, the scan looks for a separator. *)
Lemma suffix_scan_below n b x f :
  (n ≤ String.length path)%nat → Z.of_nat n ≤ sd →
  b = sd → x = -1 → f = e →
  clean path (Z.of_nat n) sd →
  base_cut path sd e (Path.basename_suffix_scan path (Str.slice path sd e) n (Path.mkBase 0 b false x f)).
Proof.
  intros Hn Hle -> -> ->. destruct Hfound as (Hsd & He & _).
  induction n as [| i IH]; intros Hcl.
  - exists 0. repeat split; try lia. exact Hcl.
  - cbn [Path.basename_suffix_scan].
    destruct (get_lt_Some i path ltac:(lia)) as [c Hget]. rewrite Hget.
    cbn [Path.start Path.bend Path.bmatchedSlash Path.extIdx Path.firstNonSlashEnd].
    destruct (Ascii.eqb c "/") eqn:Hc; cbn [negb].
    + exists (Z.of_nat i + 1). repeat split; try lia.
      eapply clean_weaken; [| exact Hcl]. lia.
    + apply Ascii.eqb_neq in Hc.
      assert ((e =? -1) = false) as -> by (apply Z.eqb_neq; lia).
      cbn. apply IH; [lia | lia |]. eapply clean_step; eassumption.
Qed.

(** One matching step inside the extension. *)
Lemma suffix_scan_match (i : nat) m f x :
  sd ≤ Z.of_nat i < e → x = Z.of_nat i - sd →
  (f = e ∧ m = false) ∨ (f = -1 ∧ Z.of_nat i + 1 = e) →
  Path.basename_suffix_scan path (Str.slice path sd e) (S i) (Path.mkBase 0 (-1) m x f)
  = Path.basename_suffix_scan path (Str.slice path sd e) i
      (if Z.of_nat i =? sd
       then Path.mkBase 0 sd false (-1) e
       else Path.mkBase 0 (-1) false (Z.of_nat i - 1 - sd) e).
Proof.
  intros Hi -> Hf. destruct Hfound as (Hsd & He & Hcl & _).
  cbn [Path.basename_suffix_scan].
  assert (Hlt : (i < String.length path)%nat) by (unfold Str.len in He; lia).
  destruct (get_lt_Some i path Hlt) as [c Hget]. rewrite Hget.
  assert (Hc : Ascii.eqb c "/" = false).
  { apply Ascii.eqb_neq. intros ->. apply (Hcl i); [lia | exact Hget]. }
  rewrite Hc.
  cbn [Path.start Path.bend Path.bmatchedSlash Path.extIdx Path.firstNonSlashEnd].
  assert (Hst1 :
    (if f =? -1 then Path.mkBase 0 (-1) false (Z.of_nat i - sd) (Z.of_nat i + 1)
     else Path.mkBase 0 (-1) m (Z.of_nat i - sd) f)
    = Path.mkBase 0 (-1) false (Z.of_nat i - sd) e).
  { destruct Hf as [[-> ->] | [-> <-]].
    - assert ((e =? -1) = false) as -> by (apply Z.eqb_neq; lia). reflexivity.
    - reflexivity. }
  rewrite Hst1.
  cbn [Path.start Path.bend Path.bmatchedSlash Path.extIdx Path.firstNonSlashEnd].
  assert ((0 <=? Z.of_nat i - sd) = true) as -> by (apply Z.leb_le; lia).
  rewrite (suffix_get i Hi), Hget.
  rewrite bool_decide_eq_true_2 by reflexivity.
  destruct (Z.of_nat i =? sd) eqn:Hq.
  - apply Z.eqb_eq in Hq.
    assert ((Z.of_nat i - sd - 1 =? -1) = true) as -> by (apply Z.eqb_eq; lia).
    do 2 f_equal; lia.
  - apply Z.eqb_neq in Hq.
    assert ((Z.of_nat i - sd - 1 =? -1) = false) as -> by (apply Z.eqb_neq; lia).
    do 2 f_equal; lia.
Qed.

(** Inside the extension: every character matches the suffix. *)
Lemma suffix_scan_inside n x :
  sd < Z.of_nat n < e → x = Z.of_nat n - 1 - sd →
  base_cut path sd e
    (Path.basename_suffix_scan path (Str.slice path sd e) n
       (Path.mkBase 0 (-1) false x e)).
Proof.
  pose proof Hfound as (Hsd & He & _).
  revert x. induction n as [| i IH]; intros x Hn ->; [lia |].
  rewrite (suffix_scan_match i false e) by (first [lia | left; split; reflexivity]).
  destruct (Z.of_nat i =? sd) eqn:Hq.
  - apply Z.eqb_eq in Hq.
    apply suffix_scan_below; try reflexivity; try lia.
    + unfold Str.len in He. lia.
    + intros j Hj. lia.
  - apply Z.eqb_neq in Hq. apply IH; lia.
Qed.

(** Above the extension: trailing separators are skipped. *)
Lemma suffix_scan_above n :
  (n ≤ String.length path)%nat → e ≤ Z.of_nat n →
  base_cut path sd e (Path.basename_suffix_scan path (Str.slice path sd e) n
                 (Path.mkBase 0 (-1) true (e - sd - 1) (-1))).
Proof.
  destruct Hfound as (Hsd & He & Hcl & Hsl).
  induction n as [| i IH]; intros Hn Hle; [lia |].
  destruct (decide (e ≤ Z.of_nat i)) as [Hge | Hlt].
  - cbn [Path.basename_suffix_scan].
    rewrite (Hsl i) by (unfold Str.len; lia). cbn. apply IH; lia.
  - rewrite (suffix_scan_match i true (-1)) by (first [lia | right; split; lia]).
    destruct (Z.of_nat i =? sd) eqn:Hq.
    + apply Z.eqb_eq in Hq.
      apply suffix_scan_below; try reflexivity; try lia. intros j Hj. lia.
    + apply Z.eqb_neq in Hq. apply suffix_scan_inside; lia.
Qed.

End BasenameScan.

Lemma extname_slash_free path : slash_free (Path.extname path) = true.
Proof.
  destruct (extname_shape path) as [-> | (sd & e & -> & (Hsd & _ & Hcl & _))];
    [reflexivity |].
  apply slice_clean; [lia | exact Hcl].
Qed.

(** The base name taken with the file's own extension as suffix holds no
    separator. *)
Lemma basename_extname_slash_free path :
  slash_free (Path.basename path (Path.extname path)) = true.
Proof.
  destruct (extname_shape path) as [Hext | (sd & e & Hext & Hf)]; rewrite Hext;
    unfold Path.basename.
  - cbn [Str.len String.length Z.of_nat Z.ltb Z.compare andb].
    set (st := Path.basename_plain_scan path _ _).
    assert (Hpost : base_post path st).
    { apply basename_plain_post; [lia |]. split; [reflexivity |]. left. split; reflexivity. }
    destruct (Path.bend st =? -1) eqn:Hb; [reflexivity |].
    destruct Hpost as [H | (Hle & Hcl)]; [apply Z.eqb_neq in Hb; contradiction |].
    apply slice_clean; [lia | exact Hcl].
  - rewrite (suffix_len path sd e Hf).
    pose proof Hf as (Hsd & He & Hcl & _).
    assert ((0 <? e - sd) = true) as -> by (apply Z.ltb_lt; lia).
    assert ((e - sd <=? Str.len path) = true) as -> by (apply Z.leb_le; lia).
    cbn [andb].
    destruct (String.eqb _ path); [reflexivity |].
    destruct (suffix_scan_above path sd e Hf (String.length path))
      as (s0 & -> & Hs0 & Hcl0); [lia | unfold Str.len in He; lia |].
    cbn [Path.start Path.bend Path.firstNonSlashEnd].
    destruct (s0 =? sd) eqn:Hq.
    + apply Z.eqb_eq in Hq. subst s0. apply slice_clean; [lia | exact Hcl].
    + assert ((sd =? -1) = false) as -> by (apply Z.eqb_neq; lia).
      apply slice_clean; [lia | exact Hcl0].
Qed.

Lemma pretty_N_char_not_slash d : Ascii.eqb (pretty_N_char d) "/"%char = false.
Proof. unfold pretty_N_char. repeat case_match; reflexivity. Qed.

Lemma pretty_N_go_slash_free x s :
  slash_free s = true → slash_free (pretty_N_go x s) = true.
Proof.
  revert s. induction (N.lt_wf_0 x) as [x _ IH]; intros s Hs.
  assert (x = 0 ∨ 0 < x)%N as [-> | Hpos] by lia.
  - rewrite pretty_N_go_0. exact Hs.
  - rewrite pretty_N_go_step by exact Hpos. apply IH.
    + apply N.div_lt; [exact Hpos | reflexivity].
    + simpl. rewrite pretty_N_char_not_slash. exact Hs.
Qed.

Lemma pretty_slash_free (n : N) : slash_free (pretty n) = true.
Proof.
  unfold pretty, pretty_N. case_decide; [reflexivity |].
  apply pretty_N_go_slash_free. reflexivity.
Qed.

(** X9 (cloudinary.js and multer.js, the [filename] callbacks): whatever the
    original filename is, the generated name holds no ['/']: the staged file
    is a direct entry of the destination directory. *)
Theorem generated_name_has_no_separator (originalname : string) (stamp rnd : N) :
  slash_free (CloudinaryJs.unique_name originalname stamp rnd) = true
  ∧ slash_free (MulterJs.uniquename originalname stamp) = true.
Proof.
  unfold CloudinaryJs.unique_name, MulterJs.uniquename.
  rewrite !slash_free_app, !pretty_slash_free, basename_extname_slash_free,
    extname_slash_free.
  split; reflexivity.
Qed.

Example generated_name_of_traversal :
  CloudinaryJs.unique_name "../../etc/cron.d/job.sh" 1700000000123 42
  = "job-1700000000123-42.sh".
Proof. vm_compute. reflexivity. Qed.

(* ===================================================================== *)
(** ** Further properties of multer.js: the multi-file handlers           *)
(* ===================================================================== *)

Lemma wire_fileInfos fs :
  List.map (λ x, match x with VUndefined => VNull | _ => wire x end)
    (List.map MulterJs.fileInfo fs)
  = List.map MulterJs.fileInfo fs.
Proof. rewrite List.map_map. apply List.map_ext. reflexivity. Qed.

Lemma wire_fieldInfos fs :
  wire (VArr (List.map MulterJs.fieldInfo fs)) = VArr (List.map MulterJs.fieldInfo fs).
Proof.
  cbn [wire]. f_equal. rewrite List.map_map. apply List.map_ext. reflexivity.
Qed.

(** The answer of /upload-multiple to a non-empty [req.files], with the
    records written out. *)
Lemma upload_multiple_run (fs : list File.t) (w : World) :
  fs ≠ [] →
  (MulterJs.upload_multiple (Some fs) w).1
  = Normal
      (mkResponse 200
         (VObj [("success", VBool true);
                ("message",
                  VStr (pretty (List.length fs) +:+ " files uploaded successfully"));
                ("files",
                  VArr (List.map
                          (λ f, VObj [("originalName", VStr (shown f).1.1);
                                      ("savedAs", VStr (shown f).1.2);
                                      ("size",
                                        VStr (Str.kilobytes_toFixed2 (shown f).2
                                              +:+ " KB"))])
                          fs))])).
Proof.
  destruct fs as [| f fs]; [contradiction |]. intros _.
  unfold MulterJs.upload_multiple. cbn [List.length Nat.eqb].
  unfold mbind, async_bind, console_log, respond, mret, async_ret. cbn [fst].
  do 2 f_equal. cbn [wire List.flat_map app].
  rewrite (wire_fileInfos (f :: fs)). reflexivity.
Qed.

(** X10 (multer.js, handler of /upload-multiple): the handler answers 400
    exactly when [req.files] is undefined or empty.  For a non-empty
    [req.files] it answers 200 with the number of files in the message and
    one record per file, in the order of [req.files], holding the original
    name, the stored name and the size as kilobytes with two decimals and the
    unit KB; nothing else of a file goes into the answer: two lists of files
    that agree on these three attributes, whatever their staged paths,
    destinations, types and field names, get the same answer. *)
Theorem upload_multiple_answer (fs : list File.t) (w : World) :
  fs ≠ [] →
  (MulterJs.upload_multiple (Some fs) w).1
  = Normal
      (mkResponse 200
         (VObj [("success", VBool true);
                ("message",
                  VStr (pretty (List.length fs) +:+ " files uploaded successfully"));
                ("files",
                  VArr (List.map
                          (λ f, VObj [("originalName", VStr (File.originalname f));
                                      ("savedAs", VStr (File.filename f));
                                      ("size",
                                        VStr (Str.kilobytes_toFixed2 (File.size f)
                                              +:+ " KB"))])
                          fs))]))
  ∧ (∀ fs', List.map shown fs' = List.map shown fs →
            (MulterJs.upload_multiple (Some fs') w).1
            = (MulterJs.upload_multiple (Some fs) w).1)
  ∧ (∀ files, has_status 400 (MulterJs.upload_multiple files w).1 = true
              ↔ files = None ∨ files = Some []).
Proof.
  intros Hne. split; [exact (upload_multiple_run fs w Hne) |]. split.
  - intros fs' Hshown.
    assert (Hne' : fs' ≠ []).
    { intros ->. destruct fs; [contradiction | discriminate Hshown]. }
    rewrite (upload_multiple_run fs w Hne), (upload_multiple_run fs' w Hne').
    assert (Hlen : List.length fs' = List.length fs).
    { rewrite <- (List.length_map shown fs'), Hshown. apply List.length_map. }
    rewrite Hlen. do 6 f_equal.
    rewrite <- (List.map_map shown
                  (λ s, VObj [("originalName", VStr s.1.1); ("savedAs", VStr s.1.2);
                              ("size", VStr (Str.kilobytes_toFixed2 s.2 +:+ " KB"))]) fs').
    rewrite Hshown, List.map_map. reflexivity.
  - intros [[| f rest] |]; cbn.
    + split; [right; reflexivity | reflexivity].
    + split; [discriminate | intros [H | H]; discriminate H].
    + split; [left; reflexivity | reflexivity].
Qed.

(** X10 at two stored files: the staged paths [uploads/...] are in neither
    record. *)
Lemma upload_multiple_answer_witness :
  (MulterJs.upload_multiple (Some [stored_a; stored_b])
     (world0 (Resolved descriptor_png) no_fault)).1
  = Normal
      (mkResponse 200
         (VObj [("success", VBool true);
                ("message", VStr "2 files uploaded successfully");
                ("files",
                  VArr [VObj [("originalName", VStr "a.png");
                              ("savedAs", VStr "a-1700000000123.png");
                              ("size", VStr "2.00 KB")];
                        VObj [("originalName", VStr "b.gif");
                              ("savedAs", VStr "b-1700000000124.gif");
                              ("size", VStr "239.49 KB")]])])).
Proof.
  destruct (upload_multiple_answer [stored_a; stored_b]
              (world0 (Resolved descriptor_png) no_fault)) as [Hrun _];
    [discriminate |].
  rewrite Hrun. vm_compute. reflexivity.
Defined.

Lemma set_prop_fresh k v fields :
  ¬ In k (List.map fst fields) → MulterJs.set_prop k v fields = fields ++ [(k, v)].
Proof.
  induction fields as [| [k' v'] fields IH]; intros Hk; [reflexivity |].
  cbn in *. destruct (String.eqb k k') eqn:Hq.
  - apply String.eqb_eq in Hq. exfalso. apply Hk. left. symmetry. exact Hq.
  - rewrite IH by (intros Hin; apply Hk; right; exact Hin). reflexivity.
Qed.

(** Assigning the entries of an object with distinct names, in order, to an
    object that has none of these names appends them in that order. *)
Lemma fold_set_prop (g : list File.t → Value) entries acc :
  List.NoDup (List.map fst entries) →
  (∀ k, In k (List.map fst entries) → ¬ In k (List.map fst acc)) →
  List.fold_left (λ acc entry, MulterJs.set_prop entry.1 (g entry.2) acc) entries acc
  = acc ++ List.map (λ entry, (entry.1, g entry.2)) entries.
Proof.
  revert acc. induction entries as [| [k fs] entries IH]; intros acc Hnd Hdisj.
  - cbn. symmetry. apply app_nil_r.
  - cbn [List.fold_left List.map fst snd] in *.
    apply List.NoDup_cons_iff in Hnd as [Hk Hnd].
    rewrite set_prop_fresh by (apply Hdisj; left; reflexivity).
    rewrite IH; [rewrite <- List.app_assoc; reflexivity | exact Hnd |].
    intros k' Hin. rewrite List.map_app, List.in_app_iff. cbn.
    intros [Hacc | [<- | []]].
    + apply (Hdisj k'); [right; exact Hin | exact Hacc].
    + contradiction.
Qed.

Lemma wire_uploadedFiles entries :
  List.flat_map
    (λ kv : string * Value,
       match kv with
       | (_, VUndefined) => []
       | (k, x) => [(k, wire x)]
       end)
    (List.map (λ entry : string * list File.t,
                 (entry.1, VArr (List.map MulterJs.fieldInfo entry.2))) entries)
  = List.map (λ entry : string * list File.t,
                (entry.1, VArr (List.map MulterJs.fieldInfo entry.2))) entries.
Proof.
  induction entries as [| [k fs] entries IH]; [reflexivity |].
  cbn [List.map List.flat_map fst snd]. rewrite IH, wire_fieldInfos. reflexivity.
Qed.

(** X11 (multer.js, /upload-multiple-fields): the request is answered 400
    only when [req.files] is undefined; for an object whose properties are
    distinct declared field names, an empty object included, it is answered
    200 with [uploadedFiles] holding the same field names in the same order,
    each with one record (original name, stored name) per file of that
    field, in order. *)
Theorem upload_multiple_fields_mirrors
    (entries : list (string * list File.t)) (w : World) :
  List.NoDup (List.map fst entries) →
  (∀ k, In k (List.map fst entries) → In k ["profilepic"; "gallery"; "documents"]) →
  MulterJs.upload_multiple_fields (Some entries) w
  = (Normal
       (mkResponse 200
          (VObj [("success", VBool true);
                 ("uploadedFiles",
                   VObj (List.map
                           (λ entry, (entry.1,
                                      VArr (List.map MulterJs.fieldInfo entry.2)))
                           entries))])),
     w).
Proof.
  intros Hnd _. unfold MulterJs.upload_multiple_fields, respond, mret, async_ret.
  rewrite (fold_set_prop (λ fs, VArr (List.map MulterJs.fieldInfo fs)) entries [] Hnd)
    by (intros k _ []).
  cbn [app wire List.flat_map]. rewrite wire_uploadedFiles. reflexivity.
Qed.

Lemma upload_multiple_fields_mirrors_witness :
  (MulterJs.upload_multiple_fields (Some [("profilepic", [staged_png]); ("gallery", [])])
     (world0 (Resolved descriptor_png) no_fault)).1
  = Normal
      (mkResponse 200
         (VObj [("success", VBool true);
                ("uploadedFiles",
                  VObj [("profilepic",
                          VArr [VObj [("originalName", VStr "photo.png");
                                      ("savedAs", VStr "photo-1700000000000-42.png")]]);
                        ("gallery", VArr [])])])).
Proof.
  rewrite (upload_multiple_fields_mirrors
             [("profilepic", [staged_png]); ("gallery", [])]).
  - reflexivity.
  - repeat constructor; cbn; intuition discriminate.
  - cbn. intuition.
Defined.

(* ===================================================================== *)
(** ** Further properties: the directory bootstrap                        *)
(* ===================================================================== *)

Section Bootstrap.

Example entry_samples :
  entry "./uploads" = "uploads"
  ∧ entry "uploads/" = "uploads"
  ∧ entry "uploads//profiles/." = "uploads/profiles"
  ∧ entry "uploads/temp/../documents" = "uploads/documents"
  ∧ entry "../uploads" = "../uploads"
  ∧ entry "/srv/app/./uploads/" = "/srv/app/uploads".
Proof. repeat split. Qed.

(** [try { await fs.access(dir) } catch { await fs.mkdir(dir, ...) }]: an
    entry the file system refuses fails both calls, and the error of [mkdir]
    leaves the block. *)
Lemma ensure_run dir w :
  try_catch (fs_access dir) (λ _, fs_mkdir_recursive dir) w
  = if denied w (entry dir) then
      (Throw (mkError ("EACCES: permission denied, mkdir '" +:+ dir +:+ "'")), w)
    else if decide (entry dir ∈ disk w) then (Normal tt, w)
    else (Normal tt,
          emit (EvMkdir dir)
            (set_disk (disk w ∪ list_to_set (ancestors (entry dir)) ∪ {[entry dir]}) w)).
Proof.
  unfold try_catch, fs_access, fs_mkdir_recursive.
  destruct (denied w (entry dir)) eqn:Hd; [rewrite Hd; reflexivity |].
  destruct (decide (entry dir ∈ disk w)); [reflexivity |]. rewrite Hd. reflexivity.
Qed.

Lemma ensure_grows dir w :
  let r := try_catch (fs_access dir) (λ _, fs_mkdir_recursive dir) w in
  disk w ⊆ disk r.2
  ∧ denied r.2 = denied w
  ∧ (r.1 = Normal tt ↔ denied w (entry dir) = false)
  ∧ (r.1 = Normal tt →
     entry dir ∈ disk r.2
     ∧ (entry dir ∉ disk w → ∀ q, In q (ancestors (entry dir)) → q ∈ disk r.2)).
Proof.
  cbn zeta. rewrite ensure_run.
  destruct (denied w (entry dir)); cbn [fst snd].
  { split; [reflexivity |]. split; [reflexivity |]. split; [| discriminate].
    split; discriminate. }
  destruct (decide (entry dir ∈ disk w)) as [Hin | Hnin]; cbn [fst snd disk emit set_disk].
  - split; [reflexivity |]. split; [reflexivity |]. split; [tauto |].
    intros _. split; [exact Hin | contradiction].
  - split.
    { intros x Hx. apply elem_of_union. left. apply elem_of_union. left. exact Hx. }
    split; [reflexivity |]. split; [tauto |]. intros _. split.
    + apply elem_of_union. right. apply elem_of_singleton. reflexivity.
    + intros _ q Hq. apply elem_of_union. left. apply elem_of_union. right.
      apply elem_of_list_to_set, list_elem_of_In, Hq.
Qed.

Lemma for_of_ensure_grows l w :
  let r := for_of l (λ dir, try_catch (fs_access dir) (λ _, fs_mkdir_recursive dir)) w in
  disk w ⊆ disk r.2
  ∧ denied r.2 = denied w
  ∧ (r.1 = Normal tt ↔ ∀ d, In d l → denied w (entry d) = false)
  ∧ (r.1 = Normal tt → ∀ d, In d l → entry d ∈ disk r.2).
Proof.
  revert w. induction l as [| x l IH]; intros w; cbn zeta.
  - cbn. split; [reflexivity |]. split; [reflexivity |]. split; [| intros _ d []].
    split; [intros _ d [] | reflexivity].
  - cbn [for_of]. unfold mbind, async_bind.
    destruct (ensure_grows x w) as (Hsub & Hden & Hiff & Hafter). cbn zeta in *.
    destruct (try_catch _ _ w) as [[[] | e] w1]; cbn [fst snd] in *.
    + destruct (IH w1) as (Hsub' & Hden' & Hiff' & Hafter'). cbn zeta in *.
      destruct (Hafter eq_refl) as [Hx _].
      split; [intros y Hy; apply Hsub', Hsub, Hy |].
      split; [rewrite Hden', Hden; reflexivity |]. split.
      * rewrite Hiff', Hden. split.
        -- intros Hall d [<- | Hd]; [apply Hiff; reflexivity | apply Hall, Hd].
        -- intros Hall d Hd. apply Hall. right. exact Hd.
      * intros Hn d [<- | Hd]; [apply Hsub', Hx | apply (Hafter' Hn), Hd].
    + split; [exact Hsub |]. split; [exact Hden |]. split; [| discriminate].
      split; [discriminate |]. intros Hall. exfalso.
      assert (Hx : denied w (entry x) = false) by (apply Hall; left; reflexivity).
      apply Hiff in Hx. discriminate Hx.
Qed.

Lemma for_of_ensure_noop l w :
  (∀ d, In d l → denied w (entry d) = false ∧ entry d ∈ disk w) →
  for_of l (λ dir, try_catch (fs_access dir) (λ _, fs_mkdir_recursive dir)) w
  = (Normal tt, w).
Proof.
  induction l as [| x l IH]; intros Hall; [reflexivity |].
  cbn [for_of]. unfold mbind, async_bind. rewrite ensure_run.
  destruct (Hall x) as [-> Hin]; [left; reflexivity |].
  rewrite decide_True by exact Hin.
  apply IH. intros d Hd. apply Hall. right. exact Hd.
Qed.

End Bootstrap.

(** X12 (cloudinary.js, [createSubDirs]): on a disk where every entry has
    its parent directories, the bootstrap removes nothing; it returns
    exactly when the file system refuses none of the three sub-directories,
    and rejects otherwise, [mkdir] standing outside any [try]; when it
    returns, the three sub-directories and [uploads] are on disk, and a
    second run changes nothing and creates nothing. *)
Theorem createSubDirs_bootstraps (w : World) :
  parent_closed (disk w) →
  let dirs := ["uploads/profiles"; "uploads/documents"; "uploads/temp"] in
  let r := CloudinaryJs.createSubDirs w in
  disk w ⊆ disk r.2
  ∧ (r.1 = Normal tt ↔ ∀ d, In d dirs → denied w d = false)
  ∧ (r.1 = Normal tt →
     (∀ d, In d ("uploads" :: dirs) → d ∈ disk r.2)
     ∧ CloudinaryJs.createSubDirs r.2 = (Normal tt, r.2)).
Proof.
  intros Hclosed dirs. unfold CloudinaryJs.createSubDirs. cbn zeta. fold dirs.
  assert (Hentry : ∀ d, In d dirs → entry d = d).
  { intros d Hd. repeat (destruct Hd as [<- | Hd]; [reflexivity |]). destruct Hd. }
  destruct (for_of_ensure_grows dirs w) as (Hsub & Hden & Hiff & Hall). cbn zeta in *.
  split; [exact Hsub |]. split.
  { rewrite Hiff. split; intros H d Hd.
    - rewrite <- (Hentry d Hd). apply H, Hd.
    - rewrite (Hentry d Hd). apply H, Hd. }
  intros Hn. split.
  - intros d [<- | Hd]; [| rewrite <- (Hentry d Hd); apply (Hall Hn), Hd].
    revert Hn. subst dirs. cbn [for_of]. unfold mbind, async_bind.
    destruct (ensure_grows "uploads/profiles" w) as (Hs & _ & _ & Hafter). cbn zeta in *.
    destruct (try_catch _ _ w) as [[[] | e] w1]; [| discriminate]. cbn [fst snd] in *.
    destruct (for_of_ensure_grows ["uploads/documents"; "uploads/temp"] w1)
      as (Hs1 & _). cbn zeta in *. intros _. apply Hs1.
    destruct (Hafter eq_refl) as [_ Hanc].
    destruct (decide ("uploads/profiles" ∈ disk w)) as [Hin | Hnin].
    + apply Hs. apply (Hclosed "uploads/profiles"); [exact Hin | left; reflexivity].
    + apply Hanc; [exact Hnin | left; reflexivity].
  - apply for_of_ensure_noop. intros d Hd. split.
    + rewrite Hden. apply Hiff; [exact Hn | exact Hd].
    + apply (Hall Hn), Hd.
Qed.

Lemma createSubDirs_bootstraps_witness :
  let w := mkWorld ∅ (λ _ _, Rejected network_error) no_fault no_denial
             (λ _, 0%N) (λ _, 0%N) [] in
  (CloudinaryJs.createSubDirs w).1 = Normal tt
  ∧ "uploads" ∈ disk (CloudinaryJs.createSubDirs w).2
  ∧ "uploads/documents" ∈ disk (CloudinaryJs.createSubDirs w).2.
Proof.
  intros w.
  destruct (createSubDirs_bootstraps w) as (_ & Hiff & Hafter).
  - intros p q Hp _. exfalso. exact (not_elem_of_empty (C:=gset string) p Hp).
  - assert (Hn : (CloudinaryJs.createSubDirs w).1 = Normal tt)
      by (apply Hiff; intros d _; reflexivity).
    destruct (Hafter Hn) as [Hall _].
    split; [exact Hn |]. split; apply Hall; cbn; tauto.
Defined.

(** X13 (multer.js, [storage.destination]): when an entry named by
    ['./uploads'] is already on disk the callback answers ['./uploads'] and
    touches nothing; it never removes anything; and whenever it returns, it
    has answered ['./uploads'], has made a [mkdirSync] call only if the entry
    was missing, the entry is on disk, and a second call changes nothing. *)
Theorem destination_creates_once (file file' : Multer.Incoming) (w : World) :
  let r := MulterJs.destination file w in
  ("uploads" ∈ disk w → r = (Normal "./uploads", w))
  ∧ disk w ⊆ disk r.2
  ∧ ∀ dir, r.1 = Normal dir →
      dir = "./uploads"
      ∧ "uploads" ∈ disk r.2
      ∧ fs_writes r.2
        = (fs_writes w + (if decide ("uploads" ∈ disk w) then 0 else 1))%nat
      ∧ MulterJs.destination file' r.2 = (Normal "./uploads", r.2).
Proof.
  unfold MulterJs.destination, mbind, async_bind, fs_ensure_dir, mret, async_ret. cbn zeta.
  change (entry "./uploads") with "uploads".
  destruct (decide ("uploads" ∈ disk w)) as [Hin | Hnin]; cbn [fst snd].
  - split; [reflexivity |]. split; [reflexivity |]. intros dir [= <-].
    rewrite decide_True by exact Hin.
    refine (conj _ (conj _ (conj _ _))); try reflexivity; try exact Hin. lia.
  - assert (Hnew : "uploads" ∈ disk w ∪ {["uploads"]})
      by (apply elem_of_union; right; apply elem_of_singleton; reflexivity).
    split; [contradiction |]. split.
    { cbn [disk emit set_disk]. intros x Hx. apply elem_of_union. left. exact Hx. }
    intros dir [= <-]. cbn [disk emit set_disk]. rewrite decide_True by exact Hnew.
    refine (conj _ (conj _ (conj _ _))); try reflexivity; try exact Hnew.
    count_events. reflexivity.
Qed.

(** X13 on an empty disk: one [mkdirSync], and [uploads] is there. *)
Lemma destination_creates_once_witness :
  let w := mkWorld ∅ (λ _ _, Rejected network_error) no_fault no_denial
             (λ _, 0%N) (λ _, 0%N) [] in
  "uploads" ∈ disk (MulterJs.destination photo_JPG w).2
  ∧ fs_writes (MulterJs.destination photo_JPG w).2 = 1%nat.
Proof.
  intros w.
  destruct (destination_creates_once photo_JPG photo_JPG w) as (_ & _ & Hret).
  destruct (Hret "./uploads" eq_refl) as (_ & Hin & Hwrites & _).
  split; [exact Hin | exact Hwrites].
Defined.

(* ===================================================================== *)
(** ** Further properties: delete attempts of the profile route          *)
(* ===================================================================== *)

Lemma upload_profile_undefined_world f b w w' :
  CloudinaryJs.uploadAndCleanup (File.path f)
    (CloudinaryJs.profile_options (clock w (count is_now w))) (profile_prelude f b w)
  = (Normal VUndefined, w') →
  (CloudinaryJs.upload_profile (mkRequest (Some f) b) w).2
  = (CloudinaryJs.cleanup_in_catch (mkRequest (Some f) b) w').2.
Proof.
  unfold profile_prelude, CloudinaryJs.upload_profile; simpl.
  unfold mbind, async_bind, try_catch, console_log, Date_now, mret, async_ret.
  destruct (negb (truthy (assoc "username" b)) || negb (truthy (assoc "userId" b)));
    rewrite ?count_now_log; simpl; intros ->; simpl;
    match goal with
    | |- context [CloudinaryJs.cleanup_in_catch ?r ?w0] =>
        destruct (cleanup_in_catch_total r w0) as [w2 ->]
    end; reflexivity.
Qed.

Lemma cleanup_in_catch_attempts f b w :
  File.path f ≠ "" →
  unlink_attempts (File.path f)
    (CloudinaryJs.cleanup_in_catch (mkRequest (Some f) b) w).2
  = S (unlink_attempts (File.path f) w).
Proof.
  intros Hne. unfold CloudinaryJs.cleanup_in_catch. cbn [file truthy].
  assert (String.eqb (File.path f) "" = false) as -> by (apply String.eqb_neq, Hne).
  cbn [negb]. unfold mbind, async_bind.
  destruct (deleteLocalFile_run (File.path f) w) as (H1 & Hn & _). cbn zeta in *.
  destruct (CloudinaryJs.deleteLocalFile (File.path f) w) as [[ok | e] w1];
    cbn [fst snd] in *; [exact Hn | discriminate H1].
Qed.

(** X14 (cloudinary.js, /api/upload/profile): for a request with a staged
    file, the route makes one delete attempt on the staged path when it
    answers 200, two when the provider rejected the upload, and three when
    the upload resolved and the first unlink failed: on every 500 path
    [deleteLocalFile] is called once more after [uploadAndCleanup] has
    already tried. *)
Theorem upload_profile_delete_attempts
    (f : File.t) (b : list (string * Value)) (w : World) :
  File.path f ≠ "" →
  let r := CloudinaryJs.upload_profile (mkRequest (Some f) b) w in
  (unlink_attempts (File.path f) r.2 - unlink_attempts (File.path f) w)%nat
  = match provider w (File.path f)
            (CloudinaryJs.profile_options (clock w (count is_now w))) with
    | Resolved _ => if unlink_succeeds (File.path f) w then 1%nat else 3%nat
    | Rejected _ => 2%nat
    end.
Proof.
  intros Hne. cbn zeta.
  destruct (provider w (File.path f) _) as [d | e] eqn:Hp;
    [destruct (unlink_succeeds (File.path f) w) eqn:Hu |].
  - rewrite <- (profile_prelude_provider f b w) in Hp.
    rewrite <- (profile_prelude_unlink f b w) in Hu.
    pose proof (profile_prelude_attempts f b w (File.path f)) as Hatt.
    destruct (uploadAndCleanup_resolved_clean _ _ _ d Hp Hu) as (w' & Hrun & Hn & _).
    destruct (upload_profile_descriptor f b w d w' Hrun) as (r & -> & _).
    cbn [snd]. lia.
  - rewrite <- (profile_prelude_provider f b w) in Hp.
    rewrite <- (profile_prelude_unlink f b w) in Hu.
    pose proof (profile_prelude_attempts f b w (File.path f)) as Hatt.
    destruct (uploadAndCleanup_resolved_dirty _ _ _ d Hp Hu) as (w' & Hrun & Hn).
    rewrite (upload_profile_undefined_world f b w w' Hrun).
    rewrite (cleanup_in_catch_attempts f b w' Hne). lia.
  - rewrite <- (profile_prelude_provider f b w) in Hp.
    pose proof (profile_prelude_attempts f b w (File.path f)) as Hatt.
    destruct (uploadAndCleanup_rejected _ _ _ e Hp) as (w' & Hrun & Hn & _).
    rewrite (upload_profile_undefined_world f b w w' Hrun).
    rewrite (cleanup_in_catch_attempts f b w' Hne). lia.
Qed.

Lemma upload_profile_delete_attempts_witness :
  let w := world0 (Rejected network_error) no_fault in
  let r := CloudinaryJs.upload_profile (mkRequest (Some staged_png) []) w in
  (unlink_attempts (File.path staged_png) r.2
   - unlink_attempts (File.path staged_png) w)%nat
  = 2%nat.
Proof.
  intros w.
  exact (upload_profile_delete_attempts staged_png [] w ltac:(discriminate)).
Defined.

(** X15 (cloudinary.js, [documentUpload]): in the pattern
    [/pdf|doc|docx|txt/] the alternative [docx] never decides: a string that
    holds [docx] holds [doc], so the verdict is the one of [/pdf|doc|txt/]. *)
Theorem docx_alternative_is_redundant (file : Multer.Incoming) :
  document_verdict file
  = CloudinaryJs.filter_verdict ["pdf"; "doc"; "txt"]
      "Only document files are allowed" file.
Proof.
  assert (Hsame : ∀ s, CloudinaryJs.regexp_test CloudinaryJs.document_filetypes s
                       = CloudinaryJs.regexp_test ["pdf"; "doc"; "txt"] s).
  { intros s. unfold CloudinaryJs.regexp_test, CloudinaryJs.document_filetypes.
    cbn [existsb].
    destruct (includes "docx" s) eqn:Hx; [| rewrite !orb_false_l; reflexivity].
    change "docx" with ("doc" +:+ "x") in Hx. apply includes_app_l in Hx.
    rewrite Hx. cbn [orb]. destruct (includes "pdf" s); reflexivity. }
  unfold document_verdict, CloudinaryJs.filter_verdict. rewrite !Hsame. reflexivity.
Qed.

(* ===================================================================== *)
(** ** Further properties: the staged name keeps the extension            *)
(* ===================================================================== *)

Section ExtensionShape.
Variable path : string.

Lemma nodot_step (i : nat) b c :
  String.get i path = Some c → c ≠ "."%char →
  nodot path (Z.of_nat (S i)) b → nodot path (Z.of_nat i) b.
Proof.
  intros Hget Hc Hnd j Hj.
  destruct (decide (j = i)) as [-> | Hne].
  - rewrite Hget. congruence.
  - apply Hnd. lia.
Qed.

Lemma dot_inv_post n st : dot_inv path n st → dot_post path st.
Proof.
  intros [(_ & Hsd & _) | (_ & _ & [(Hsd & _) | (_ & Hget & Hnd)])];
    [left; exact Hsd | left; exact Hsd | right; split; assumption].
Qed.

Lemma extname_scan_dot n st :
  dot_inv path n st → dot_post path (Path.extname_scan path n st).
Proof.
  revert st. induction n as [| i IH]; intros st Hinv; [eapply dot_inv_post, Hinv |].
  cbn [Path.extname_scan].
  destruct (String.get i path) as [c |] eqn:Hget; [| eapply dot_inv_post, Hinv].
  destruct st as [sd sp e m pds]. cbn [Path.startDot Path.startPart Path.end_
    Path.matchedSlash Path.preDotState].
  destruct (Ascii.eqb c "/") eqn:Hc.
  - destruct m; cbn [negb].
    + apply IH. destruct Hinv as [(He & Hsd & _) | (Hm & _)]; [| discriminate Hm].
      left. cbn in *. repeat split; assumption.
    + destruct (dot_inv_post _ _ Hinv) as [Hsd | Hf]; [left | right]; assumption.
  - apply IH. destruct Hinv as [(He & Hsd & _) | (Hm & Hle & Hdots)]; cbn in *.
    + subst e sd. cbn -[dot_inv].
      destruct (Ascii.eqb c ".") eqn:Hd; cbn -[dot_inv]; right; cbn.
      * apply Ascii.eqb_eq in Hd. subst c.
        split; [reflexivity |]. split; [lia |]. right.
        rewrite Nat2Z.id. repeat split; try lia; try assumption. intros j Hj. lia.
      * apply Ascii.eqb_neq in Hd.
        split; [reflexivity |]. split; [lia |]. left. split; [reflexivity |].
        intros j Hj. assert (j = i) as -> by lia. rewrite Hget. congruence.
    + subst m.
      assert ((e =? -1) = false) as -> by (apply Z.eqb_neq; lia).
      cbn -[dot_inv].
      destruct Hdots as [(Hsd & Hnd) | (Hsd & Hdot & Hnd)].
      * subst sd. cbn -[dot_inv].
        destruct (Ascii.eqb c ".") eqn:Hd; cbn -[dot_inv]; right; cbn.
        -- apply Ascii.eqb_eq in Hd. subst c.
           split; [reflexivity |]. split; [lia |]. right.
           rewrite Nat2Z.id. repeat split; try lia; try assumption.
           intros j Hj. apply Hnd. lia.
        -- apply Ascii.eqb_neq in Hd.
           split; [reflexivity |]. split; [lia |]. left. split; [reflexivity |].
           eapply nodot_step; eassumption.
      * assert ((sd =? -1) = false) as -> by (apply Z.eqb_neq; lia).
        destruct (Ascii.eqb c "."); cbn -[dot_inv];
          try destruct (negb (pds =? 1)); cbn -[dot_inv]; right; cbn;
          (split; [reflexivity |]; split; [lia |]; right;
           repeat split; try lia; assumption).
Qed.

Lemma slice_cons sd e c :
  0 ≤ sd < e → String.get (Z.to_nat sd) path = Some c →
  Str.slice path sd e = String c (Str.slice path (sd + 1) e).
Proof.
  intros Hsd Hget. unfold Str.slice.
  replace (Z.to_nat (e - sd)) with (S (Z.to_nat (e - (sd + 1)))) by lia.
  replace (Z.to_nat (sd + 1)) with (S (Z.to_nat sd)) by lia.
  generalize (Z.to_nat (e - (sd + 1))) as m. revert Hget.
  generalize (Z.to_nat sd) as a. clear Hsd.
  induction path as [| x s IH]; intros [| a] Hget m; cbn in *; try discriminate.
  - injection Hget as ->. reflexivity.
  - apply IH, Hget.
Qed.

Lemma slice_nodot a b :
  0 ≤ a → nodot path a b → dot_free (Str.slice path a b) = true.
Proof.
  intros Ha Hnd.
  assert (Hget : ∀ i, String.get i (Str.slice path a b) ≠ Some "."%char).
  { intros i. unfold Str.slice.
    destruct (lt_dec i (Z.to_nat (b - a))) as [Hlt | Hge].
    - rewrite String.substring_correct1 by exact Hlt. apply Hnd. lia.
    - rewrite String.substring_correct2 by lia. discriminate. }
  revert Hget. generalize (Str.slice path a b) as s.
  induction s as [| c s IH]; intros H; [reflexivity |]. simpl.
  apply andb_true_iff. split.
  - apply negb_true_iff, Ascii.eqb_neq. intros ->. apply (H 0%nat). reflexivity.
  - apply IH. intros i. apply (H (S i)).
Qed.

(** Shape of a non-empty extension: a dot, then neither dot nor separator. *)
Lemma extname_dot_shape :
  Path.extname path = ""
  ∨ ∃ rest, Path.extname path = String "."%char rest
            ∧ dot_free rest = true ∧ slash_free rest = true.
Proof.
  unfold Path.extname.
  set (st := Path.extname_scan path _ _).
  assert (Hpost : ext_post path st).
  { apply extname_scan_post. left. cbn. repeat split. intros j Hj.
    unfold Str.len in Hj. lia. }
  assert (Hdot : dot_post path st).
  { apply extname_scan_dot. left. cbn. repeat split. }
  destruct (Path.startDot st =? -1) eqn:Hsd; [left; reflexivity |].
  destruct (_ || _); [left; reflexivity |].
  apply Z.eqb_neq in Hsd.
  destruct Hpost as [H | (Hb & He & Hcl & _)]; [contradiction |].
  destruct Hdot as [H | (Hget & Hnd)]; [contradiction |].
  right. exists (Str.slice path (Path.startDot st + 1) (Path.end_ st)).
  split; [apply slice_cons; [lia | exact Hget] |]. split.
  - apply slice_nodot; [lia | exact Hnd].
  - apply slice_clean; [lia |]. eapply clean_weaken; [| exact Hcl]. lia.
Qed.

End ExtensionShape.

Section KeptExtension.
Variable name : string.
Variables L T : Z.
Hypothesis HT : Str.len name = T.
Hypothesis HL : 2 ≤ L < T.
Hypothesis Hclean : clean name 0 T.
Hypothesis Hdot : String.get (Z.to_nat L) name = Some "."%char.
Hypothesis Hrest : nodot name (L + 1) T.
Hypothesis Hlast : String.get (Z.to_nat (L - 1)) name ≠ Some "."%char.

Lemma kept_scan n st :
  Z.of_nat n ≤ T → kept_inv L T n st → kept_post L T (Path.extname_scan name n st).
Proof.
  revert st. induction n as [| i IH]; intros st Hn (Hsp & Hinv).
  - cbn. destruct Hinv as [(Hlt & _) | (_ & Hsd & He & _ & _ & Hpds)]; [lia |].
    repeat split; try assumption. apply Hpds. lia.
  - cbn [Path.extname_scan].
    destruct (get_lt_Some i name ltac:(unfold Str.len in HT; lia)) as [c Hget].
    rewrite Hget.
    assert (Hc : Ascii.eqb c "/" = false).
    { apply Ascii.eqb_neq. intros ->. apply (Hclean i); [lia | exact Hget]. }
    rewrite Hc. destruct st as [sd sp e m pds]. cbn in Hsp, Hinv. subst sp.
    cbn [Path.startDot Path.startPart Path.end_ Path.matchedSlash Path.preDotState].
    apply IH; [lia |].
    destruct Hinv as [(Hlt & -> & -> & Hend) | (Hle & -> & -> & -> & Hp0 & Hp1)].
    + assert (Hst1 : (if e =? -1 then Path.mkExt (-1) 0 (Z.of_nat i + 1) false 0
                      else Path.mkExt (-1) 0 e m 0)
                     = Path.mkExt (-1) 0 T false 0).
      { destruct Hend as [(-> & -> & HnT) | (-> & ->)].
        - cbn. f_equal. lia.
        - assert ((T =? -1) = false) as -> by (apply Z.eqb_neq; lia). reflexivity. }
      rewrite Hst1. cbn -[kept_inv].
      destruct (decide (Z.of_nat i = L)) as [HiL | HiL].
      * assert (c = "."%char) as ->.
        { rewrite <- HiL, Nat2Z.id in Hdot. congruence. }
        cbn -[kept_inv]. split; [reflexivity |]. right. cbn.
        repeat split; try lia.
      * assert (Hd : Ascii.eqb c "." = false).
        { apply Ascii.eqb_neq. intros ->. apply (Hrest i); [lia | exact Hget]. }
        rewrite Hd. cbn -[kept_inv]. split; [reflexivity |]. left. cbn.
        repeat split; try lia; try (right; split; reflexivity).
    + assert ((T =? -1) = false) as -> by (apply Z.eqb_neq; lia).
      assert ((L =? -1) = false) as HLq by (apply Z.eqb_neq; lia).
      cbn -[kept_inv]. rewrite HLq.
      destruct (Ascii.eqb c ".") eqn:Hd; cbn -[kept_inv].
      * apply Ascii.eqb_eq in Hd. subst c.
        assert (Hlt : Z.of_nat (S i) < L).
        { destruct (decide (Z.of_nat (S i) = L)) as [Heq | Hne]; [| lia].
          exfalso. apply Hlast. replace (Z.to_nat (L - 1)) with i by lia. exact Hget. }
        specialize (Hp1 Hlt).
        destruct (negb (pds =? 1)); (split; [reflexivity |]); right; cbn;
          repeat split; try lia; try (intros _; first [discriminate | exact Hp1]).
      * split; [reflexivity |]. right. cbn. repeat split; try lia;
          try (intros _; discriminate).
Qed.

Lemma extname_kept : Path.extname name = Str.slice name L T.
Proof.
  unfold Path.extname.
  set (st := Path.extname_scan name _ _).
  assert (Hpost : kept_post L T st).
  { apply kept_scan; [unfold Str.len in HT; lia |]. split; [reflexivity |]. left. cbn.
    unfold Str.len in HT. repeat split; try lia; try (left; repeat split; exact HT). }
  destruct Hpost as (Hsp & Hsd & He & Hpds). rewrite Hsd, He, Hsp.
  assert ((L =? -1) = false) as -> by (apply Z.eqb_neq; lia).
  assert ((T =? -1) = false) as -> by (apply Z.eqb_neq; lia).
  assert ((Path.preDotState st =? 0) = false) as -> by (apply Z.eqb_neq, Hpds).
  assert ((L =? 0 + 1) = false) as -> by (apply Z.eqb_neq; lia).
  rewrite !andb_false_r. reflexivity.
Qed.

End KeptExtension.

Section AppendFacts.

Lemma get_app_l i a b :
  (i < String.length a)%nat → String.get i (a +:+ b) = String.get i a.
Proof.
  revert i. induction a as [| c a IH]; intros i Hi; [simpl in Hi; lia |].
  rewrite string_app_cons. destruct i as [| i]; [reflexivity |].
  simpl. apply IH. simpl in Hi. lia.
Qed.

Lemma get_app_r i a b :
  String.get (String.length a + i) (a +:+ b) = String.get i b.
Proof.
  induction a as [| c a IH]; [reflexivity |].
  rewrite string_app_cons. simpl. exact IH.
Qed.

Lemma substring_app_r a b :
  String.substring (String.length a) (String.length b) (a +:+ b) = b.
Proof.
  induction a as [| c a IH].
  - rewrite string_app_nil_l. simpl. induction b as [| x b IHb]; [reflexivity |].
    simpl. now rewrite IHb.
  - rewrite string_app_cons. simpl. exact IH.
Qed.

Lemma slash_free_clean s (i : nat) :
  slash_free s = true → String.get i s ≠ Some "/"%char.
Proof.
  revert i. induction s as [| c s IH]; intros i Hs; [destruct i; discriminate |].
  simpl in Hs. apply andb_true_iff in Hs as [Hc Hs].
  destruct i as [| i]; simpl.
  - apply negb_true_iff, Ascii.eqb_neq in Hc. congruence.
  - apply IH, Hs.
Qed.

Lemma dot_free_get s (i : nat) :
  dot_free s = true → String.get i s ≠ Some "."%char.
Proof.
  revert i. induction s as [| c s IH]; intros i Hs; [destruct i; discriminate |].
  simpl in Hs. apply andb_true_iff in Hs as [Hc Hs].
  destruct i as [| i]; simpl.
  - apply negb_true_iff, Ascii.eqb_neq in Hc. congruence.
  - apply IH, Hs.
Qed.

(** The extension of [pre + '.' + rest] is ['.' + rest] when no separator
    occurs, [rest] holds no dot, and [pre], of two characters at least, does
    not end in a dot. *)
Lemma extname_app_kept pre rest :
  slash_free pre = true → slash_free rest = true → dot_free rest = true →
  (2 ≤ String.length pre)%nat →
  String.get (String.length pre - 1) pre ≠ Some "."%char →
  Path.extname (pre +:+ String "."%char rest) = String "."%char rest.
Proof.
  intros Hpre Hrest Hdots Hlen Hlast.
  set (name := pre +:+ String "."%char rest).
  set (L := Z.of_nat (String.length pre)).
  set (T := L + 1 + Z.of_nat (String.length rest)).
  assert (HT : Str.len name = T).
  { unfold Str.len, name. rewrite string_length_app. simpl. lia. }
  rewrite (extname_kept name L T HT).
  - unfold Str.slice, name, L, T. rewrite Nat2Z.id.
    replace (Z.to_nat _) with (String.length (String "."%char rest)) by (simpl; lia).
    apply substring_app_r.
  - lia.
  - intros j _. apply slash_free_clean. unfold name.
    rewrite slash_free_app, Hpre. simpl. exact Hrest.
  - unfold L, name. rewrite Nat2Z.id.
    rewrite <- (Nat.add_0_r (String.length pre)). rewrite get_app_r. reflexivity.
  - intros j Hj. unfold name.
    replace j with (String.length pre + S (j - String.length pre - 1))%nat by lia.
    rewrite get_app_r. simpl. apply dot_free_get, Hdots.
  - unfold L, name. replace (Z.to_nat _) with (String.length pre - 1)%nat by lia.
    rewrite get_app_l by lia. exact Hlast.
Qed.

Lemma pretty_N_char_not_dot d : Ascii.eqb (pretty_N_char d) "."%char = false.
Proof. unfold pretty_N_char. repeat case_match; reflexivity. Qed.

Lemma pretty_N_go_dot_free x s :
  dot_free s = true → dot_free (pretty_N_go x s) = true.
Proof.
  revert s. induction (N.lt_wf_0 x) as [x _ IH]; intros s Hs.
  assert (x = 0 ∨ 0 < x)%N as [-> | Hpos] by lia.
  - rewrite pretty_N_go_0. exact Hs.
  - rewrite pretty_N_go_step by exact Hpos. apply IH.
    + apply N.div_lt; [exact Hpos | reflexivity].
    + simpl. rewrite pretty_N_char_not_dot. exact Hs.
Qed.

Lemma pretty_dot_free (n : N) : dot_free (pretty n) = true.
Proof.
  unfold pretty, pretty_N. case_decide; [reflexivity |].
  apply pretty_N_go_dot_free. reflexivity.
Qed.

Lemma pretty_N_go_length x s :
  (String.length s ≤ String.length (pretty_N_go x s))%nat.
Proof.
  revert s. induction (N.lt_wf_0 x) as [x _ IH]; intros s.
  assert (x = 0 ∨ 0 < x)%N as [-> | Hpos] by lia.
  - rewrite pretty_N_go_0. lia.
  - rewrite pretty_N_go_step by exact Hpos.
    etrans; [| apply IH, N.div_lt; [exact Hpos | reflexivity]]. simpl. lia.
Qed.

Lemma pretty_nonempty (n : N) : (1 ≤ String.length (pretty n))%nat.
Proof.
  unfold pretty, pretty_N. case_decide as Hn; [simpl; lia |].
  rewrite pretty_N_go_step by lia.
  etrans; [| apply pretty_N_go_length]. simpl. lia.
Qed.

(** A string that ends in a number does not end in a dot. *)
Lemma ends_in_number x (n : N) :
  String.get (String.length (x +:+ pretty n) - 1) (x +:+ pretty n) ≠ Some "."%char.
Proof.
  pose proof (pretty_nonempty n) as Hlen.
  rewrite string_length_app.
  replace (String.length x + String.length (pretty n) - 1)%nat
    with (String.length x + (String.length (pretty n) - 1))%nat by lia.
  rewrite get_app_r. apply dot_free_get, pretty_dot_free.
Qed.

End AppendFacts.

(** X16 (cloudinary.js and multer.js, the [filename] callbacks): when the
    original filename has an extension, the generated name has the same
    extension, character for character: staging does not change what an
    extension check sees. *)
Theorem generated_name_keeps_extension (originalname : string) (stamp rnd : N) :
  Path.extname originalname ≠ "" →
  Path.extname (CloudinaryJs.unique_name originalname stamp rnd)
  = Path.extname originalname
  ∧ Path.extname (MulterJs.uniquename originalname stamp) = Path.extname originalname.
Proof.
  intros Hext.
  destruct (extname_dot_shape originalname) as [H | (rest & Hshape & Hdots & Hclean)];
    [contradiction |].
  pose proof (basename_extname_slash_free originalname) as Hbase.
  unfold CloudinaryJs.unique_name, MulterJs.uniquename.
  rewrite Hshape in *.
  set (base := Path.basename originalname (String "."%char rest)) in *.
  split.
  - replace (base +:+ "-" +:+ (pretty stamp +:+ "-" +:+ pretty rnd) +:+ String "."%char rest)
      with (((base +:+ "-" +:+ pretty stamp +:+ "-") +:+ pretty rnd)
              +:+ String "."%char rest)
      by (rewrite !string_app_assoc; reflexivity).
    apply extname_app_kept; try assumption.
    + rewrite !slash_free_app, Hbase, !pretty_slash_free. reflexivity.
    + pose proof (pretty_nonempty rnd). rewrite !string_length_app. simpl. lia.
    + apply ends_in_number.
  - replace (base +:+ "-" +:+ pretty stamp +:+ String "."%char rest)
      with (((base +:+ "-") +:+ pretty stamp) +:+ String "."%char rest)
      by (rewrite !string_app_assoc; reflexivity).
    apply extname_app_kept; try assumption.
    + rewrite !slash_free_app, Hbase, !pretty_slash_free. reflexivity.
    + pose proof (pretty_nonempty stamp). rewrite !string_length_app. simpl. lia.
    + apply ends_in_number.
Qed.

Lemma generated_name_keeps_extension_witness :
  Path.extname "holiday.photo.JPG" ≠ ""
  ∧ Path.extname (CloudinaryJs.unique_name "holiday.photo.JPG" 1700000000123 42)
    = Path.extname "holiday.photo.JPG"
  ∧ Path.extname (MulterJs.uniquename "holiday.photo.JPG" 1700000000123)
    = Path.extname "holiday.photo.JPG".
Proof.
  split; [vm_compute; discriminate |].
  exact (generated_name_keeps_extension "holiday.photo.JPG" 1700000000123 42
           ltac:(vm_compute; discriminate)).
Defined.
